(** * Particle effects of the Bonkers game: [objects/particle.py]

    A shallow embedding of the four classes of [objects/particle.py]
    ([Particle], [ExplosionParticle], [ExplosionManager], [Fireball]) and the
    properties of their per-frame update, culling and drawing code.

    Numbers.  A Python [float] is an IEEE-754 binary64, which is Rocq's
    primitive [float]; its operations [+ - * /], [sqrt] and the comparisons
    are the correctly rounded ones of the hardware, as in CPython.  Fields the
    code only ever treats as Python integers ([life], [max_life], [glow_size],
    [age], [lifetime], [speed], [radius], colour channels) are [Z].  Fields
    that hold an [int] at first and a [float] after the first arithmetic with
    a float ([x], [y], [size], the fallback velocity of a fireball) are
    binary64 throughout: a small integer is identified with the float of the
    same value, which is what Python's mixed arithmetic and comparisons do.
    The same holds for the coordinates a [Fireball] is constructed with: on
    integer pixel coordinates Python squares and adds exactly, which the
    float path matches where the C library's [pow] returns the exact square
    and the squares stay below 2^53.

    Effects.  The module-level [random] generator is an explicit state
    threaded through the constructors; [math.cos], [math.sin] and the [pow]
    behind a float's [**] belong to the C library and are parameters.
    Explosion particles are mutable objects held by reference in Python
    lists, so they live in a store ([heap]) and the lists hold locations. *)

From Stdlib Require Import ZArith Bool Lia Floats.
From stdpp Require Import base option list.

#[local] Set Warnings "-inexact-float".
#[local] Open Scope Z_scope.

(** ** Signs of binary64 values *)

(** A value that is not below zero: a zero, a positive number, [+inf], or
    a NaN. *)
Definition not_negative (f : spec_float) : bool :=
  match f with
  | S754_zero _ | S754_nan | S754_infinity false | S754_finite false _ _ => true
  | S754_infinity true | S754_finite true _ _ => false
  end.

(** The sign bit of a value, and none for a NaN. *)
Definition sign_bit (f : spec_float) : option bool :=
  match f with
  | S754_nan => None
  | S754_zero s | S754_infinity s | S754_finite s _ _ => Some s
  end.

(** [v] does not point away from an offset [d]: it is a NaN, or it has the
    sign of [d]. *)
Definition toward (d v : float) : Prop :=
  sign_bit (Prim2SF v) = None \/
  sign_bit (Prim2SF v) = sign_bit (Prim2SF d).

(** A base that [**] hands to the C library: neither a NaN, nor an
    infinity, nor a zero, nor of absolute value 1. *)
Definition ordinary (v : float) : Prop :=
  is_nan v = false /\ is_infinity v = false /\
  (v =? 0)%float = false /\ (abs v =? 1)%float = false.

(** ** Python runtime: exceptions, state, numbers, [random], [math] *)

Module Py.

(** Exceptions raised by the numeric code paths. *)
Inductive exn := OverflowError | ValueError.

Inductive result (A : Type) :=
| Ok (a : A)
| Raise (e : exn).
Arguments Ok {A} a.
Arguments Raise {A} e.

Definition rbind {A B} (c : result A) (k : A -> result B) : result B :=
  match c with
  | Ok a => k a
  | Raise e => Raise e
  end.

(** State passing for the random generator and the object store. *)
Definition State (S A : Type) := S -> A * S.

Definition ret {S A} (a : A) : State S A := fun s => (a, s).

Definition bind {S A B} (c : State S A) (k : A -> State S B) : State S B :=
  fun s => let (a, s') := c s in k a s'.

(** [float(n)] for a Python int [n], correctly rounded.  The integers
    converted here are the few the code writes or draws with [randint]; far
    beyond them, past the binary64 range, Python raises where this yields an
    infinity. *)
Definition of_int (n : Z) : float :=
  SF2Prim (binary_normalize prec emax n 0 false).

(** [max(a, b)]: the first argument unless the second is strictly greater. *)
Definition max (a b : float) : float :=
  if (a <? b)%float then b else a.

(** [math.sqrt]: a negative argument is a domain error. *)
Definition math_sqrt (x : float) : result float :=
  if (x <? 0)%float then Raise ValueError else Ok (sqrt x).

(** [math.pi] *)
Definition pi : float := 0x1.921fb54442d18p+1%float.

(** [int(x)] on a float: truncation toward zero; NaN and the infinities
    raise. *)
Definition int (x : float) : result Z :=
  match Prim2SF x with
  | S754_zero _ => Ok 0
  | S754_nan => Raise ValueError
  | S754_infinity _ => Raise OverflowError
  | S754_finite s m e => Ok (cond_Zopp s (Z.shiftl (Z.pos m) e))
  end.

(** [round(x)] on a float, the rounding the specification's wording of
    [Particle.draw] names: to the nearest integer, a tie to the even one. *)
Definition round (x : float) : result Z :=
  match Prim2SF x with
  | S754_zero _ => Ok 0
  | S754_nan => Raise ValueError
  | S754_infinity _ => Raise OverflowError
  | S754_finite s m e =>
      if 0 <=? e then Ok (cond_Zopp s (Z.shiftl (Z.pos m) e))
      else
        let d := Z.shiftl 1 (- e) in
        let q := Z.pos m / d in
        let up :=
          match 2 * (Z.pos m mod d) ?= d with
          | Lt => false
          | Eq => Z.odd q
          | Gt => true
          end in
        Ok (cond_Zopp s (if up then q + 1 else q))
  end.

(** The generator behind the [random] module: [random.random()] and the
    [_randbelow(n)] that [randint] and [choice] are built on. *)
Class Random (G : Type) := {
  random : State G float;
  randbelow : Z -> State G Z;
}.

(** What Python promises of them. *)
Class RandomOk (G : Type) {R : Random G} : Prop := {
  random_range : forall g,
    (0 <=? fst (random g))%float = true /\ (fst (random g) <? 1)%float = true;
  randbelow_range : forall n g, 0 < n -> 0 <= fst (randbelow n g) < n;
}.

(** What a call of the C library leaves in [errno]. *)
Inductive errno := NoError | ERANGE | EDOM.

(** [math.cos] and [math.sin] of the C library, and its [pow]: the value
    returned and the [errno] it leaves. *)
Class Libm := {
  cos : float -> float;
  sin : float -> float;
  pow : float -> float -> float * errno;
}.

(** What the code needs of [pow] at exponent 2, and every C library gives:
    on a finite positive base the value is not below zero, and the only
    error reported is a range error. *)
Class LibmOk {M : Libm} : Prop := {
  pow_square : forall x : float,
    (0 <? x)%float = true -> is_infinity x = false ->
    not_negative (Prim2SF (fst (pow x 2))) = true /\
    snd (pow x 2) <> EDOM;
}.

(** CPython's [_Py_ADJUST_ERANGE1]: an infinite result counts as a range
    error also when the C library did not say so, and an underflow to zero
    as none. *)
Definition adjust_erange (ix : float) (e : errno) : errno :=
  match e with
  | NoError => if is_infinity ix then ERANGE else NoError
  | ERANGE => if (ix =? 0)%float then NoError else ERANGE
  | EDOM => EDOM
  end.

(** [x ** 2] on a float, after CPython's [float_pow]: a NaN, an infinity, a
    zero and a base of absolute value 1 are answered without the C library;
    otherwise [pow] is called on the absolute value of the base (the
    exponent is even), and what it leaves in [errno], adjusted, decides
    between the result, [OverflowError] and [ValueError]. *)
Definition pow2 {M : Libm} (x : float) : result float :=
  if is_nan x then Ok x
  else if is_infinity x then Ok (abs x)
  else if (x =? 0)%float then Ok 0%float
  else
    let iv := abs x in
    if (iv =? 1)%float then Ok 1%float
    else
      let (ix, e) := pow iv 2 in
      match adjust_erange ix e with
      | NoError => Ok ix
      | ERANGE => Raise OverflowError
      | EDOM => Raise ValueError
      end.

Section RandomModule.
Context {G : Type} {R : Random G}.

(** [random.uniform(a, b)]: [a + (b - a) * random()] *)
Definition uniform (a b : float) : State G float :=
  bind random (fun r => ret (a + (b - a) * r)%float).

(** [random.randint(a, b)]: [a + _randbelow(b - a + 1)] *)
Definition randint (a b : Z) : State G Z :=
  bind (randbelow (b - a + 1)) (fun k => ret (a + k)).

(** [random.choice(seq)] on a non-empty sequence [x :: xs]:
    [seq[_randbelow(len(seq))]] *)
Definition choice {A} (x : A) (xs : list A) : State G A :=
  bind (randbelow (Z.of_nat (length (x :: xs))))
       (fun k => ret (nth (Z.to_nat k) (x :: xs) x)).
End RandomModule.

End Py.

Notation "x <- c ;; k" := (Py.bind c (fun x => k))
  (at level 100, c at next level, right associativity).
Notation "x <-? c ;; k" := (Py.rbind c (fun x => k))
  (at level 100, c at next level, right associativity).

(** An RGB triple. *)
Definition rgb : Type := Z * Z * Z.

(** ** Drawing: what reaches the screen, and what a draw call may raise

    A draw call is a sequence of pygame calls on the screen; an exception
    stops it after the calls already made.  [Draw.t A] is the list of screen
    calls made, with the value returned or the exception raised. *)

Module Draw.

(** Exceptions a draw call may raise: those of [Py], and the division by
    zero of [life / max_life]. *)
Inductive exn := ZeroDivisionError | Numeric (e : Py.exn).

Inductive outcome (A : Type) :=
| Done (a : A)
| Fail (e : exn).
Arguments Done {A} a.
Arguments Fail {A} e.

(** A surface handed to [screen.blit]: a loaded image, or a fresh
    [pygame.Surface(side, pygame.SRCALPHA)] on which one circle was drawn,
    of colour [c] with [alpha] as its fourth channel. *)
Inductive surface (Image : Type) :=
| Sprite (img : Image)
| GlowDisc (side : Z * Z) (c : rgb) (alpha : Z) (center : Z * Z) (radius : Z).
Arguments Sprite {Image} img.
Arguments GlowDisc {Image} side c alpha center radius.

(** [pygame.draw.circle(screen, c, center, radius)] and
    [screen.blit(s, dest)]. *)
Inductive command (Image : Type) :=
| Circle (c : rgb) (center : Z * Z) (radius : Z)
| Blit (s : surface Image) (dest : Z * Z).
Arguments Circle {Image} c center radius.
Arguments Blit {Image} s dest.

Definition t (Image A : Type) : Type := list (command Image) * outcome A.

Section Monad.
Context {Image : Type}.

Definition pure {A} (a : A) : t Image A := ([], Done a).

Definition emit (c : command Image) : t Image unit := ([c], Done tt).

Definition bind {A B} (c : t Image A) (k : A -> t Image B) : t Image B :=
  match c with
  | (cs, Done a) => let (cs', r) := k a in (cs ++ cs', r)
  | (cs, Fail e) => (cs, Fail e)
  end.

(** A numeric expression evaluated during a draw call. *)
Definition lift {A} (r : Py.result A) : t Image A :=
  match r with
  | Py.Ok a => pure a
  | Py.Raise e => ([], Fail (Numeric e))
  end.

Definition of_outcome {A} (r : outcome A) : t Image A := ([], r).

(** [for x in xs: body(x)] *)
Fixpoint for_each {X} (xs : list X) (body : X -> t Image unit) : t Image unit :=
  match xs with
  | [] => pure tt
  | x :: xs' => bind (body x) (fun _ => for_each xs' body)
  end.
End Monad.

(** An int as a float operand: rounded to nearest, [OverflowError] when the
    rounded value is not finite. *)
Definition to_float (n : Z) : Py.result float :=
  let f := Py.of_int n in
  if is_infinity f then Py.Raise Py.OverflowError else Py.Ok f.

Definition spec_of_int (n : Z) : spec_float :=
  match n with
  | Z0 => S754_zero false
  | Zpos p => S754_finite false p 0
  | Zneg p => S754_finite true p 0
  end.

(** [a / b] on two ints: the exact quotient rounded once to binary64;
    [ZeroDivisionError] for [b = 0], [OverflowError] when the quotient is
    too large for a float. *)
Definition truediv (a b : Z) : outcome float :=
  if b =? 0 then Fail ZeroDivisionError
  else
    match SFdiv prec emax (spec_of_int a) (spec_of_int b) with
    | S754_infinity _ => Fail (Numeric Py.OverflowError)
    | q => Done (SF2Prim q)
    end.

End Draw.

Notation "x <-! c ;; k" := (Draw.bind c (fun x => k))
  (at level 100, c at next level, right associativity).

(** ** class Particle *)

Module Particle.

Record t := mk {
  x : float;
  y : float;
  color : rgb;
  size : float;
  velocity_x : float;
  velocity_y : float;
  gravity : float;
  lifetime : Z;
  age : Z;
}.

(** [pygame.draw.circle(screen, color, center, radius)] *)
Inductive draw_command :=
| Circle (c : rgb) (center : Z * Z) (radius : Z).

Section Init.
Context {G : Type} {R : Py.Random G}.

Definition init (x y : float) (c : rgb) : Py.State G t :=
  size <- Py.randint 3 6 ;;
  velocity_x <- Py.uniform (-3) 3 ;;
  velocity_y <- Py.uniform (-5) (-2) ;;
  Py.ret {| x := x; y := y; color := c; size := Py.of_int size;
            velocity_x := velocity_x; velocity_y := velocity_y;
            gravity := 0.3; lifetime := 30; age := 0 |}.
End Init.

Definition update (self : t) : t :=
  let x' := (x self + velocity_x self)%float in
  let y' := (y self + velocity_y self)%float in
  let velocity_y' := (velocity_y self + gravity self)%float in
  let age' := age self + 1 in
  let size' := Py.max 1 (size self - 0.1) in
  {| x := x'; y := y'; color := color self; size := size';
     velocity_x := velocity_x self; velocity_y := velocity_y';
     gravity := gravity self; lifetime := lifetime self; age := age' |}.

(** The commands [draw] sends to the screen, or the exception it raises. *)
Definition draw (self : t) : Py.result (list draw_command) :=
  if age self <? lifetime self then
    cx <-? Py.int (x self) ;;
    cy <-? Py.int (y self) ;;
    r <-? Py.int (size self) ;;
    Py.Ok [Circle (color self) (cx, cy) r]
  else Py.Ok [].

Definition is_dead (self : t) : bool :=
  (lifetime self <=? age self) || (size self <=? 1)%float.

(** [n] calls of [update] in a row. *)
Definition updates (n : nat) (self : t) : t := Nat.iter n update self.

(** The [size] that [n] calls of [update] make of a size [s]. *)
Definition shrunk (n : nat) (s : float) : float :=
  Nat.iter n (fun s => Py.max 1 (s - 0.1)) s.

(** [draw] as the specification words it: one circle at
    [(round(x), round(y))] whose radius is the current [size]. *)
Definition draws_rounded (self : t) (out : Py.result (list draw_command))
  : Prop :=
  exists cx cy r,
    Py.round (x self) = Py.Ok cx /\ Py.round (y self) = Py.Ok cy /\
    Py.of_int r = size self /\
    out = Py.Ok [Circle (color self) (cx, cy) r].

End Particle.

(** ** class ExplosionParticle *)

Module ExplosionParticle.

Record t := mk {
  x : float;
  y : float;
  vx : float;
  vy : float;
  color : rgb;
  size : float;
  life : Z;
  max_life : Z;
  glow_size : Z;
}.

Section Init.
Context {G : Type} {R : Py.Random G} {M : Py.Libm}.

Definition init (x y : float) (c : rgb) : Py.State G t :=
  angle <- Py.uniform 0 (2 * Py.pi) ;;
  speed <- Py.uniform 2 8 ;;
  size <- Py.randint 4 10 ;;
  life <- Py.randint 25 45 ;;
  glow_size <- Py.randint 15 30 ;;
  Py.ret {| x := x; y := y;
            vx := Py.cos angle * speed; vy := Py.sin angle * speed;
            color := c; size := Py.of_int size;
            life := life; max_life := life; glow_size := glow_size |}.
End Init.

(** [update] mutates the particle and returns [self.life > 0]: the new
    state and the returned boolean. *)
Definition update (self : t) : t * bool :=
  let x' := (x self + vx self)%float in
  let y' := (y self + vy self)%float in
  let vy' := (vy self + 0.2)%float in
  let life' := life self - 1 in
  let size' := Py.max 1 (size self - 0.15) in
  ({| x := x'; y := y'; vx := vx self; vy := vy'; color := color self;
      size := size'; life := life'; max_life := max_life self;
      glow_size := glow_size self |},
   0 <? life').

(** The state after [n] calls of [update] in a row. *)
Definition updates (n : nat) (self : t) : t :=
  Nat.iter n (fun p => fst (update p)) self.

(** The [size] that [n] calls of [update] make of a size [s]. *)
Definition shrunk (n : nat) (s : float) : float :=
  Nat.iter n (fun s => Py.max 1 (s - 0.15)) s.

Section Draw.
Context {Image : Type}.

(** [int(255 * (self.life / self.max_life))] *)
Definition alpha (self : t) : Draw.t Image Z :=
  ratio <-! Draw.of_outcome (Draw.truediv (life self) (max_life self)) ;;
  Draw.lift (Py.int (255 * ratio)).

(** The body of [for i in range(3)]: one glow layer, skipped when its
    radius is not positive. *)
Definition glow_layer (self : t) (alpha : Z) (i : Z) : Draw.t Image unit :=
  let glow_size := glow_size self - i * 5 in
  if 0 <? glow_size then
    let glow_alpha := Z.max 0 (alpha / (i + 2)) in
    g <-! Draw.lift (Draw.to_float glow_size) ;;
    left <-! Draw.lift (Py.int (x self - g)) ;;
    top <-! Draw.lift (Py.int (y self - g)) ;;
    Draw.emit (Draw.Blit
                 (Draw.GlowDisc (glow_size * 2, glow_size * 2) (color self)
                    glow_alpha (glow_size, glow_size) glow_size)
                 (left, top))
  else Draw.pure tt.

Definition draw (self : t) : Draw.t Image unit :=
  if 0 <? life self then
    alpha <-! alpha self ;;
    _ <-! Draw.for_each [0; 1; 2] (glow_layer self alpha) ;;
    cx <-! Draw.lift (Py.int (x self)) ;;
    cy <-! Draw.lift (Py.int (y self)) ;;
    r <-! Draw.lift (Py.int (size self)) ;;
    Draw.emit (Draw.Circle (color self) (cx, cy) r)
  else Draw.pure tt.
End Draw.

End ExplosionParticle.

(** ** The store of explosion particles

    A Python list of particles holds references.  [heap] is the store of all
    [ExplosionParticle] objects ever constructed, a location is an index into
    it, and objects are never freed while referenced. *)

Abbreviation loc := nat (only parsing).

Record world (G : Type) := World {
  heap : list ExplosionParticle.t;
  gen : G;
}.
Arguments World {G} heap gen.
Arguments heap {G} w.
Arguments gen {G} w.

Section Store.
Context {G : Type}.

(** Run a computation of the random generator inside the world. *)
Definition with_gen {A} (c : Py.State G A) : Py.State (world G) A :=
  fun w => let (a, g) := c (gen w) in (a, World (heap w) g).

(** A new object: its reference is the next free location. *)
Definition alloc (p : ExplosionParticle.t) : Py.State (world G) loc :=
  fun w => (length (heap w), World (heap w ++ [p]) (gen w)).

(** [p.update()] through a reference: the object is mutated in place and
    the call's result returned.  A reference always points at an object; the
    [None] branch is not reached from a well-formed world. *)
Definition update_at (l : loc) : Py.State (world G) bool :=
  fun w =>
    match heap w !! l with
    | Some p =>
        let (p', alive) := ExplosionParticle.update p in
        (alive, World (<[l := p']> (heap w)) (gen w))
    | None => (false, w)
    end.

(** [[p for p in ps if p.update()]]: every particle of the list is updated,
    in order, and the ones that answer [True] are kept. *)
Fixpoint update_and_keep (ps : list loc) : Py.State (world G) (list loc) :=
  match ps with
  | [] => Py.ret []
  | l :: ps' =>
      alive <- update_at l ;;
      kept <- update_and_keep ps' ;;
      Py.ret (if alive then l :: kept else kept)
  end.

(** The [life] of the particle behind a reference. *)
Definition life_at (w : world G) (l : loc) : Z :=
  match heap w !! l with
  | Some p => ExplosionParticle.life p
  | None => 0
  end.

(** A list of references in which every particle has at most [B] frames
    to live less the number of particles listed after it. *)
Fixpoint stacked (B : Z) (w : world G) (ps : list loc) : Prop :=
  match ps with
  | [] => True
  | l :: ps' =>
      is_Some (heap w !! l) /\
      life_at w l + Z.of_nat (length ps') <= B /\
      stacked B w ps'
  end.

(** [for p in ps: p.draw(screen)] *)
Definition draw_all {Image} (ps : list loc) (w : world G)
  : Draw.t Image unit :=
  Draw.for_each ps (fun l =>
    match heap w !! l with
    | Some p => ExplosionParticle.draw p
    | None => Draw.pure tt
    end).
End Store.

(** ** class ExplosionManager *)

Module ExplosionManager.

Record t := mk { particles : list loc }.

Definition init : t := {| particles := [] |}.

Definition default_color : rgb := (255, 200, 50).
Definition default_num_particles : Z := 50.

Section Methods.
Context {G : Type} {R : Py.Random G} {M : Py.Libm}.

(** [for _ in range(n): self.particles.append(ExplosionParticle(x, y, c))] *)
Fixpoint spawn (n : nat) (x y : float) (c : rgb) (self : t)
  : Py.State (world G) t :=
  match n with
  | O => Py.ret self
  | S n' =>
      p <- with_gen (ExplosionParticle.init x y c) ;;
      l <- alloc p ;;
      spawn n' x y c {| particles := particles self ++ [l] |}
  end.

(** [range(n)] runs [n] times, and not at all for a negative [n].  The
    keyword arguments are [None] when the caller leaves them out. *)
Definition create_explosion (self : t) (x y : float)
    (color : option rgb) (num_particles : option Z)
  : Py.State (world G) t :=
  let color := default default_color color in
  let num_particles := default default_num_particles num_particles in
  self <- spawn (Z.to_nat num_particles) x y color self ;;
  self <- spawn 20 x y (255, 255, 255) self ;;
  spawn 15 x y (255, 150, 0) self.

Definition update (self : t) : Py.State (world G) t :=
  kept <- update_and_keep (particles self) ;;
  Py.ret {| particles := kept |}.

(** [draw] reads the store and changes nothing. *)
Definition draw {Image} (self : t) (w : world G) : Draw.t Image unit :=
  draw_all (particles self) w.

(** [n] calls of [update] in a row. *)
Fixpoint updates (n : nat) (self : t) : Py.State (world G) t :=
  match n with
  | O => Py.ret self
  | S n' => self <- update self ;; updates n' self
  end.

(** The states a manager goes through: it is constructed empty in any
    world, its own methods run, and in between the rest of the game may
    construct and mutate objects, though none of the particles it owns. *)
Inductive reachable : t * world G -> Prop :=
| reach_init w : reachable (init, w)
| reach_create self w x y c n :
    reachable (self, w) -> reachable (create_explosion self x y c n w)
| reach_update self w :
    reachable (self, w) -> reachable (update self w)
| reach_others self w w' :
    reachable (self, w) ->
    (forall l, l ∈ particles self -> heap w' !! l = heap w !! l) ->
    (length (heap w) <= length (heap w'))%nat ->
    reachable (self, w').

(** The manager's list holds distinct references to objects of the store:
    what the class's own methods maintain. *)
Definition owns (s : t * world G) : Prop :=
  NoDup (particles (fst s)) /\
  forall l, l ∈ particles (fst s) -> is_Some (heap (snd s) !! l).

(** Every particle of the manager's list is alive. *)
Definition all_alive (s : t * world G) : Prop :=
  forall l, l ∈ particles (fst s) ->
    exists p, heap (snd s) !! l = Some p /\ 0 < ExplosionParticle.life p.
End Methods.

End ExplosionManager.

(** ** class Fireball *)

Module Fireball.

Section Class.
(** The pygame surface type, and the outcome of loading and scaling
    [moving_fireball.png]: [None] when the [try] block raises. *)
Context {Image : Type} {M : Py.Libm} (load_fireball_image : option Image).

Record t := mk {
  x : float;
  y : float;
  target_x : float;
  target_y : float;
  speed : Z;
  active : bool;
  trail_particles : list loc;
  fireball_image : option Image;
  vx : float;
  vy : float;
  radius : Z;
}.

Definition init (x y target_x target_y : float)
    (fireball_image : option Image) : Py.result t :=
  let speed := 12 in
  let image :=
    match fireball_image with
    | None => load_fireball_image
    | Some img => Some img
    end in
  let dx := (target_x - x)%float in
  let dy := (target_y - y)%float in
  dx2 <-? Py.pow2 dx ;;
  dy2 <-? Py.pow2 dy ;;
  distance <-? Py.math_sqrt (dx2 + dy2) ;;
  let v :=
    if (0 <? distance)%float
    then ((dx / distance) * Py.of_int speed,
          (dy / distance) * Py.of_int speed)%float
    else (0%float, Py.of_int (- speed)) in
  Py.Ok {| x := x; y := y; target_x := target_x; target_y := target_y;
           speed := speed; active := true; trail_particles := [];
           fireball_image := image; vx := fst v; vy := snd v;
           radius := 15 |}.

Context {G : Type} {R : Py.Random G}.

(** [self.y < -50 or self.y > 800 or self.x < -50 or self.x > 750] *)
Definition off_screen (x y : float) : bool :=
  (y <? -50)%float || (800 <? y)%float || (x <? -50)%float || (750 <? x)%float.

Definition update (self : t) : Py.State (world G) t :=
  let x' := (x self + vx self)%float in
  let y' := (y self + vy self)%float in
  r <- with_gen Py.random ;;
  trail <-
    (if (r <? 0.3)%float then
       trail_color <- with_gen (Py.choice (255, 150, 0)
                                  [(255, 200, 50); (255, 100, 0)]) ;;
       p <- with_gen (ExplosionParticle.init x' y' trail_color) ;;
       l <- alloc p ;;
       Py.ret (trail_particles self ++ [l])
     else Py.ret (trail_particles self)) ;;
  trail <- update_and_keep trail ;;
  let active' := if off_screen x' y' then false else active self in
  Py.ret {| x := x'; y := y'; target_x := target_x self;
            target_y := target_y self; speed := speed self;
            active := active'; trail_particles := trail;
            fireball_image := fireball_image self;
            vx := vx self; vy := vy self; radius := radius self |}.

(** [n] calls of [update] in a row. *)
Fixpoint updates (n : nat) (self : t) : Py.State (world G) t :=
  match n with
  | O => Py.ret self
  | S n' => self <- update self ;; updates n' self
  end.

(** Where [n] moves at the fireball's velocity take it: [n] float
    additions on each coordinate. *)
Definition position_after (n : nat) (self : t) : float * float :=
  (Nat.iter n (fun x => x + vx self)%float (x self),
   Nat.iter n (fun y => y + vy self)%float (y self)).

(** The body of [for i in range(3)] in the fallback drawing. *)
Definition glow_ring (self : t) (i : Z) : Draw.t Image unit :=
  let glow_radius := radius self + (10 - i * 3) in
  let alpha := 100 - i * 30 in
  g <-! Draw.lift (Draw.to_float glow_radius) ;;
  left <-! Draw.lift (Py.int (x self - g)) ;;
  top <-! Draw.lift (Py.int (y self - g)) ;;
  Draw.emit (Draw.Blit
               (Draw.GlowDisc (glow_radius * 2, glow_radius * 2) (255, 150, 0)
                  alpha (glow_radius, glow_radius) glow_radius)
               (left, top)).

(** The fireball itself, after its trail: the sprite, or three glow rings
    and two discs. *)
Definition draw_body (self : t) : Draw.t Image unit :=
  match fireball_image self with
  | Some img =>
      left <-! Draw.lift (Py.int (x self - 15)) ;;
      top <-! Draw.lift (Py.int (y self - 15)) ;;
      Draw.emit (Draw.Blit (Draw.Sprite img) (left, top))
  | None =>
      _ <-! Draw.for_each [0; 1; 2] (glow_ring self) ;;
      cx <-! Draw.lift (Py.int (x self)) ;;
      cy <-! Draw.lift (Py.int (y self)) ;;
      _ <-! Draw.emit (Draw.Circle (255, 200, 50) (cx, cy) (radius self)) ;;
      cx <-! Draw.lift (Py.int (x self)) ;;
      cy <-! Draw.lift (Py.int (y self)) ;;
      Draw.emit (Draw.Circle (255, 255, 200) (cx, cy) (radius self - 5))
  end.

Definition draw (self : t) (w : world G) : Draw.t Image unit :=
  _ <-! draw_all (trail_particles self) w ;;
  draw_body self.

(** The arguments [get_rect] hands to [pygame.Rect]: left, top, width,
    height. *)
Definition get_rect (self : t) : Py.result (float * float * Z * Z) :=
  r <-? Draw.to_float (radius self) ;;
  Py.Ok ((x self - r)%float, (y self - r)%float,
         radius self * 2, radius self * 2).

(** The states a fireball goes through: it is constructed in any world,
    [update] runs, and in between the rest of the game may construct and
    mutate objects, though none of the particles of its trail. *)
Inductive reachable : t * world G -> Prop :=
| reach_init x y target_x target_y img self w :
    init x y target_x target_y img = Py.Ok self -> reachable (self, w)
| reach_update self w :
    reachable (self, w) -> reachable (update self w)
| reach_others self w w' :
    reachable (self, w) ->
    (forall l, l ∈ trail_particles self -> heap w' !! l = heap w !! l) ->
    reachable (self, w').
End Class.

End Fireball.

(** ** A deterministic generator for examples

    A counter stands in for the Mersenne Twister, two short polynomials
    for the C library's cosine and sine, and the rounded product for its
    [pow] at exponent 2, the one exponent the code uses. *)

Module Demo.

#[export] Instance counter : Py.Random Z := {|
  Py.random := fun g => ((if Z.even g then 0 else 0.5)%float, g + 1);
  Py.randbelow := fun n g => (g mod n, g + 1);
|}.

#[export] Instance libm : Py.Libm := {|
  Py.cos := fun a => (1 - a * a / 2)%float;
  Py.sin := fun a => (a - a * a * a / 6)%float;
  Py.pow := fun a b =>
    if (b =? 2)%float then ((a * a)%float, Py.NoError) else (nan, Py.EDOM);
|}.

(** A world with no objects yet. *)
Definition empty (seed : Z) : world Z := World [] seed.

End Demo.

(** * Properties *)

(** ** Binary64 facts *)

Section FloatFacts.
#[local] Open Scope float_scope.

Lemma ltb_leb (a b : float) : (a <? b) = true -> (a <=? b) = true.
Proof.
  rewrite ltb_spec, leb_spec. unfold SFltb, SFleb.
  destruct (SFcompare _ _) as [[]|]; congruence.
Qed.

(** [max(1, s)] is at least 1 whatever [s] is, a NaN included. *)
Lemma max_one_ge (s : float) : (1 <=? Py.max 1 s) = true.
Proof.
  unfold Py.max. destruct (1 <? s) eqn:E.
  - now apply ltb_leb.
  - reflexivity.
Qed.

(** [x - x] is [0.0], or NaN when [x] is a NaN or an infinity. *)
Lemma sub_diag (x : float) : x - x = 0 \/ x - x = nan.
Proof.
  assert (E : Prim2SF (x - x) = S754_zero false \/ Prim2SF (x - x) = S754_nan).
  { rewrite sub_spec. destruct (Prim2SF x) as [[]|[]| |s m e]; cbn; auto.
    left. rewrite Z.sub_diag. reflexivity. }
  destruct E as [E|E]; [left|right]; apply Prim2SF_inj; rewrite E; reflexivity.
Qed.

End FloatFacts.

(** ** Running the state monad *)

Lemma bind_run {S A B} (c : Py.State S A) (k : A -> Py.State S B) (s : S) :
  Py.bind c k s = k (fst (c s)) (snd (c s)).
Proof. unfold Py.bind. now destruct (c s). Qed.

(** ** ExplosionParticle.update *)

(** C1.  One call of [ExplosionParticle.update] moves the particle by its
    velocity (the old [vy]), adds 0.2 to [vy], takes 1 from [life], sets
    [size] to [max(1, size - 0.15)], and returns whether the new [life] is
    positive.  For a particle that was alive before the call, the answer is
    [False] exactly when the decrement brought [life] to 0 or below. *)
Theorem C1_update_mutates_then_reports (p : ExplosionParticle.t) :
  let p' := fst (ExplosionParticle.update p) in
  let alive := snd (ExplosionParticle.update p) in
  ExplosionParticle.x p' = (ExplosionParticle.x p + ExplosionParticle.vx p)%float /\
  ExplosionParticle.y p' = (ExplosionParticle.y p + ExplosionParticle.vy p)%float /\
  ExplosionParticle.vy p' = (ExplosionParticle.vy p + 0.2)%float /\
  ExplosionParticle.life p' = ExplosionParticle.life p - 1 /\
  ExplosionParticle.size p' = Py.max 1 (ExplosionParticle.size p - 0.15) /\
  alive = (0 <? ExplosionParticle.life p') /\
  (0 < ExplosionParticle.life p ->
   (alive = false <-> ExplosionParticle.life p - 1 <= 0)).
Proof.
  cbn. repeat split; try reflexivity.
  - intros E. apply Z.ltb_ge in E. exact E.
  - intros E. apply Z.ltb_ge. exact E.
Qed.

(** A particle in its last frame: [life] goes from 1 to 0 and the call
    answers [False]. *)
Lemma C1_witness :
  let p := ExplosionParticle.mk 10 20 3 (-4) (255, 200, 50) 4 1 30 20 in
  0 < ExplosionParticle.life p /\
  (snd (ExplosionParticle.update p) = false <->
   ExplosionParticle.life p - 1 <= 0).
Proof.
  cbn zeta. split; [reflexivity|].
  apply (C1_update_mutates_then_reports
           (ExplosionParticle.mk 10 20 3 (-4) (255, 200, 50) 4 1 30 20)).
  reflexivity.
Defined.

Lemma EP_updates_S (n : nat) (p : ExplosionParticle.t) :
  ExplosionParticle.updates (S n) p
  = fst (ExplosionParticle.update (ExplosionParticle.updates n p)).
Proof. reflexivity. Qed.

Lemma EP_updates_frame (n : nat) (p : ExplosionParticle.t) :
  let p' := ExplosionParticle.updates n p in
  ExplosionParticle.color p' = ExplosionParticle.color p /\
  ExplosionParticle.max_life p' = ExplosionParticle.max_life p /\
  ExplosionParticle.glow_size p' = ExplosionParticle.glow_size p /\
  ExplosionParticle.vx p' = ExplosionParticle.vx p.
Proof.
  induction n as [|n IH]; [now cbn|].
  cbn zeta in *. rewrite EP_updates_S. exact IH.
Qed.

(** C10.  [ExplosionParticle.update] leaves [color], [max_life],
    [glow_size] and [vx] as they were, so after any number of updates
    [max_life] is still the [life] drawn by the constructor. *)
Theorem C10_update_frame :
  (forall p : ExplosionParticle.t,
     let p' := fst (ExplosionParticle.update p) in
     ExplosionParticle.color p' = ExplosionParticle.color p /\
     ExplosionParticle.max_life p' = ExplosionParticle.max_life p /\
     ExplosionParticle.glow_size p' = ExplosionParticle.glow_size p /\
     ExplosionParticle.vx p' = ExplosionParticle.vx p) /\
  (forall (G : Type) (R : Py.Random G) (M : Py.Libm)
          (x y : float) (c : rgb) (g : G) (n : nat),
     let p0 := fst (ExplosionParticle.init x y c g) in
     ExplosionParticle.max_life p0 = ExplosionParticle.life p0 /\
     ExplosionParticle.max_life (ExplosionParticle.updates n p0)
     = ExplosionParticle.life p0).
Proof.
  split.
  - intros p. now cbn.
  - intros G R M x y c g n p0.
    assert (E : ExplosionParticle.max_life p0 = ExplosionParticle.life p0).
    { subst p0. unfold ExplosionParticle.init, Py.uniform, Py.randint, Py.bind, Py.ret.
      repeat match goal with |- context [let (_, _) := ?c in _] => destruct c end.
      reflexivity. }
    split; [exact E|].
    rewrite <- E. apply (EP_updates_frame n p0).
Qed.

(** ** Particle *)

Lemma Particle_updates_S (n : nat) (p : Particle.t) :
  Particle.updates (S n) p = Particle.update (Particle.updates n p).
Proof. reflexivity. Qed.

Lemma Particle_updates_age (n : nat) (p : Particle.t) :
  Particle.age (Particle.updates n p) = Particle.age p + Z.of_nat n /\
  Particle.lifetime (Particle.updates n p) = Particle.lifetime p.
Proof.
  induction n as [|n [IHa IHl]].
  - cbn. split; [lia|reflexivity].
  - rewrite Particle_updates_S. cbn [Particle.update Particle.age Particle.lifetime].
    rewrite IHa, IHl. split; [lia|reflexivity].
Qed.

Lemma Particle_init_fields {G : Type} {R : Py.Random G}
    (x y : float) (c : rgb) (g : G) :
  let p0 := fst (Particle.init x y c g) in
  Particle.age p0 = 0 /\ Particle.lifetime p0 = 30 /\
  Particle.size p0 = Py.of_int (fst (Py.randint 3 6 g)).
Proof.
  unfold Particle.init, Py.uniform, Py.bind, Py.ret.
  destruct (Py.randint 3 6 g) as [k g1]. cbn [fst].
  repeat match goal with |- context [let (_, _) := ?c in _] => destruct c end.
  now cbn.
Qed.

(** C3.  A freshly constructed [Particle] has [lifetime] 30, and after 30
    calls of [update] its [is_dead()] is true.  In any state, [is_dead()] is
    true exactly when [age >= lifetime] or [size <= 1]. *)
Theorem C3_dead_after_lifetime :
  (forall (G : Type) (R : Py.Random G) (x y : float) (c : rgb) (g : G),
     let p0 := fst (Particle.init x y c g) in
     Particle.lifetime p0 = 30 /\
     Particle.is_dead (Particle.updates 30 p0) = true) /\
  (forall p : Particle.t,
     Particle.is_dead p = true <->
     Particle.lifetime p <= Particle.age p \/
     (Particle.size p <=? 1)%float = true).
Proof.
  split.
  - intros G R x y c g p0.
    destruct (Particle_init_fields x y c g) as (Ha & Hl & _). fold p0 in Ha, Hl.
    split; [exact Hl|].
    unfold Particle.is_dead. apply orb_true_iff. left. apply Z.leb_le.
    destruct (Particle_updates_age 30 p0) as [Ea El]. rewrite Ea, El, Ha, Hl. lia.
  - intros p. unfold Particle.is_dead.
    rewrite orb_true_iff, Z.leb_le. reflexivity.
Qed.

(** ** The floor of [size] *)

Lemma Particle_size_floor (n : nat) (p : Particle.t) :
  (0 < n)%nat -> (1 <=? Particle.size (Particle.updates n p))%float = true.
Proof.
  destruct n as [|n]; [lia|]. intros _.
  rewrite Particle_updates_S. apply max_one_ge.
Qed.

Lemma EP_size_floor (n : nat) (p : ExplosionParticle.t) :
  (0 < n)%nat ->
  (1 <=? ExplosionParticle.size (ExplosionParticle.updates n p))%float = true.
Proof.
  destruct n as [|n]; [lia|]. intros _.
  rewrite EP_updates_S. apply max_one_ge.
Qed.

Lemma randint_range {G : Type} {R : Py.Random G} {HR : Py.RandomOk G} (a b : Z) (g : G) :
  a <= b -> a <= fst (Py.randint a b g) <= b.
Proof.
  intros Hab. unfold Py.randint, Py.bind, Py.ret.
  pose proof (Py.randbelow_range (b - a + 1) g) as Hr.
  destruct (Py.randbelow (b - a + 1) g) as [k g']. cbn [fst] in *. lia.
Qed.

Lemma of_int_small_ge_one (k : Z) :
  1 <= k <= 10 -> (1 <=? Py.of_int k)%float = true.
Proof.
  intros Hk.
  assert (E : k = 1 \/ k = 2 \/ k = 3 \/ k = 4 \/ k = 5 \/ k = 6 \/ k = 7 \/
              k = 8 \/ k = 9 \/ k = 10) by lia.
  repeat (destruct E as [->|E]; [reflexivity|]). subst k. reflexivity.
Qed.

Lemma EP_init_size {G : Type} {R : Py.Random G} {M : Py.Libm}
    (x y : float) (c : rgb) (g : G) :
  exists g', ExplosionParticle.size (fst (ExplosionParticle.init x y c g))
             = Py.of_int (fst (Py.randint 4 10 g')).
Proof.
  unfold ExplosionParticle.init. rewrite !bind_run. cbn [Py.ret fst].
  eexists. reflexivity.
Qed.

(** C7.  After one or more calls of [update] the [size] of a [Particle] and
    of an [ExplosionParticle] is at least 1, whatever the state before; and
    a particle that comes from its constructor (size drawn from 3..6, resp.
    4..10) has size at least 1 after any number of calls, none included. *)
Theorem C7_size_at_least_one :
  (forall (p : Particle.t) (n : nat), (0 < n)%nat ->
     (1 <=? Particle.size (Particle.updates n p))%float = true) /\
  (forall (p : ExplosionParticle.t) (n : nat), (0 < n)%nat ->
     (1 <=? ExplosionParticle.size (ExplosionParticle.updates n p))%float
     = true) /\
  (forall (G : Type) (R : Py.Random G), Py.RandomOk G ->
   forall (x y : float) (c : rgb) (g : G) (n : nat),
     (1 <=? Particle.size (Particle.updates n (fst (Particle.init x y c g))))%float
     = true) /\
  (forall (G : Type) (R : Py.Random G) (M : Py.Libm), Py.RandomOk G ->
   forall (x y : float) (c : rgb) (g : G) (n : nat),
     (1 <=? ExplosionParticle.size
              (ExplosionParticle.updates n
                 (fst (ExplosionParticle.init x y c g))))%float
     = true).
Proof.
  split; [exact (fun p n => Particle_size_floor n p)|].
  split; [exact (fun p n => EP_size_floor n p)|].
  split.
  - intros G R HR x y c g [|n]; [|apply Particle_size_floor; lia].
    unfold Particle.updates. cbn [Nat.iter nat_rect].
    destruct (Particle_init_fields x y c g) as (_ & _ & ->).
    apply of_int_small_ge_one.
    pose proof (randint_range 3 6 g). lia.
  - intros G R M HR x y c g [|n]; [|apply EP_size_floor; lia].
    unfold ExplosionParticle.updates. cbn [Nat.iter nat_rect].
    destruct (EP_init_size x y c g) as [g' ->].
    apply of_int_small_ge_one.
    pose proof (randint_range 4 10 g'). lia.
Qed.

(** The counter of [Demo] keeps Python's promises. *)
Lemma Demo_counter_ok : @Py.RandomOk Z Demo.counter.
Proof.
  split.
  - intros g. cbn. destruct (Z.even g); split; reflexivity.
  - intros n g Hn. cbn. apply Z.mod_pos_bound. exact Hn.
Qed.

Lemma C7_witness :
  PrimFloat.leb 1
    (Particle.size
       (Particle.updates 40
          (Particle.mk 0 0 (255, 0, 0) 0.5 1 (-2) 0.3 30 0))) = true /\
  PrimFloat.leb 1
    (ExplosionParticle.size
       (ExplosionParticle.updates 3
          (ExplosionParticle.mk 0 0 1 1 (255, 0, 0) 0.25 9 9 20))) = true /\
  PrimFloat.leb 1
    (Particle.size
       (Particle.updates 0
          (fst (Particle.init (R := Demo.counter) 100 200 (255, 0, 0) 7))))
  = true /\
  PrimFloat.leb 1
    (ExplosionParticle.size
       (ExplosionParticle.updates 0
          (fst (ExplosionParticle.init (R := Demo.counter) (M := Demo.libm)
                  100 200 (255, 0, 0) 7)))) = true.
Proof.
  destruct C7_size_at_least_one as (H1 & H2 & H3 & H4).
  split; [apply H1; lia|].
  split; [apply H2; lia|].
  split; [apply (H3 Z Demo.counter Demo_counter_ok)|].
  apply (H4 Z Demo.counter Demo.libm Demo_counter_ok).
Defined.

(** ** Signs through division and multiplication *)

Section SignFacts.
#[local] Open Scope float_scope.

Lemma round_aux_sign (s : bool) (m e : Z) (l : location) :
  sign_bit (binary_round_aux prec emax s m e l) = None \/
  sign_bit (binary_round_aux prec emax s m e l) = Some s.
Proof.
  unfold binary_round_aux.
  destruct (shr_fexp _ _ _ _ _) as [mrs' e'].
  destruct (shr_fexp _ _ _ _ _) as [mrs'' e''].
  destruct (shr_m mrs'') as [|q|q]; cbn; auto.
  destruct (Z.leb _ _); cbn; auto.
Qed.

(** A float above zero is a positive number or [+inf]. *)
Lemma positive_cases (d : float) :
  (0 <? d) = true ->
  Prim2SF d = S754_infinity false \/
  exists m e, Prim2SF d = S754_finite false m e.
Proof.
  rewrite ltb_spec. change (Prim2SF 0) with (S754_zero false).
  destruct (Prim2SF d) as [s|[]| |[] m e]; cbn; try discriminate; eauto.
Qed.

Lemma div_sign (a d : float) :
  (0 <? d) = true ->
  sign_bit (Prim2SF (a / d)) = None \/
  sign_bit (Prim2SF (a / d)) = sign_bit (Prim2SF a).
Proof.
  intros Hd. rewrite div_spec.
  destruct (positive_cases d Hd) as [->|(m & e & ->)];
    destruct (Prim2SF a) as [s|s| |s ma ea]; cbn [SF64div SFdiv sign_bit];
    rewrite ?xorb_false_r; auto.
  destruct (SFdiv_core_binary _ _ _ _ _ _) as [[mz ez] lz].
  apply round_aux_sign.
Qed.

Lemma mul_sign (a d : float) :
  (0 <? d) = true ->
  sign_bit (Prim2SF (a * d)) = None \/
  sign_bit (Prim2SF (a * d)) = sign_bit (Prim2SF a).
Proof.
  intros Hd. rewrite mul_spec.
  destruct (positive_cases d Hd) as [->|(m & e & ->)];
    destruct (Prim2SF a) as [s|s| |s ma ea]; cbn [SF64mul SFmul sign_bit];
    rewrite ?xorb_false_r; auto.
  apply round_aux_sign.
Qed.

(** [d / distance * 12] for a positive [distance] does not point away
    from [d]. *)
Lemma toward_velocity (d distance : float) :
  (0 <? distance) = true ->
  toward d (d / distance * Py.of_int 12).
Proof.
  intros Hd. unfold toward.
  destruct (mul_sign (d / distance) (Py.of_int 12) eq_refl) as [E|E];
    [now left|].
  rewrite E. apply div_sign, Hd.
Qed.

End SignFacts.

(** ** Fireball *)

Section FireballFacts.
Context {Image G : Type} {R : Py.Random G} {M : Py.Libm}.
Implicit Types (self : @Fireball.t Image) (w : world G).

Lemma Fireball_update_fields self w :
  let self' := fst (Fireball.update self w) in
  Fireball.x self' = (Fireball.x self + Fireball.vx self)%float /\
  Fireball.y self' = (Fireball.y self + Fireball.vy self)%float /\
  Fireball.active self'
  = (if Fireball.off_screen (Fireball.x self') (Fireball.y self')
     then false else Fireball.active self).
Proof.
  unfold Fireball.update. rewrite !bind_run. cbn. auto.
Qed.

Lemma Fireball_updates_S (n : nat) self w :
  Fireball.updates (S n) self w
  = Fireball.updates n (fst (Fireball.update self w))
                       (snd (Fireball.update self w)).
Proof. cbn [Fireball.updates]. now rewrite bind_run. Qed.

(** C5.  [Fireball.update] moves the fireball by its velocity, and when the
    new position is out of bounds ([x < -50], [x > 750], [y < -50] or
    [y > 800]) the call leaves [active] false; so does a call that carries
    the fireball to [x = 760]. *)
Theorem C5_off_screen_deactivates self w :
  let self' := fst (Fireball.update self w) in
  Fireball.x self' = (Fireball.x self + Fireball.vx self)%float /\
  Fireball.y self' = (Fireball.y self + Fireball.vy self)%float /\
  ((Fireball.x self' <? -50)%float = true \/
   (750 <? Fireball.x self')%float = true \/
   (Fireball.y self' <? -50)%float = true \/
   (800 <? Fireball.y self')%float = true ->
   Fireball.active self' = false) /\
  (Fireball.x self' = 760%float -> Fireball.active self' = false).
Proof.
  destruct (Fireball_update_fields self w) as (Ex & Ey & Ea).
  cbn zeta in *. split; [exact Ex|]. split; [exact Ey|].
  rewrite Ea. unfold Fireball.off_screen. split.
  - intros [E|[E|[E|E]]]; rewrite E, ?orb_true_r; reflexivity.
  - intros E. rewrite E.
    change (750 <? 760)%float with true. rewrite orb_true_r. reflexivity.
Qed.

(** C9.  A fireball whose [active] is false stays inactive through any
    number of [update] calls. *)
Theorem C9_inactive_forever (n : nat) self w :
  Fireball.active self = false ->
  Fireball.active (fst (Fireball.updates n self w)) = false.
Proof.
  revert self w. induction n as [|n IH]; intros self w Hin; [exact Hin|].
  rewrite Fireball_updates_S. apply IH.
  destruct (Fireball_update_fields self w) as (_ & _ & Ea). cbn zeta in Ea.
  rewrite Ea, Hin. now destruct (Fireball.off_screen _ _).
Qed.

(** On a base that is no special case the square is the value the C
    library's [pow] returns for its absolute value. *)
Lemma pow2_ordinary (v r : float) :
  Py.pow2 v = Py.Ok r -> ordinary v -> r = fst (Py.pow (abs v) 2).
Proof.
  intros E (En & Ei & Ez & E1). revert E. unfold Py.pow2.
  rewrite En, Ei, Ez, E1.
  destruct (Py.pow (abs v) 2) as [ix e]. cbn [fst].
  destruct (Py.adjust_erange ix e); [|discriminate..]. now intros [= ->].
Qed.

(** C4.  A constructed [Fireball] has speed 12 and, with [distance] the
    square root of [dx**2 + dy**2] (each square, on an ordinary offset, the
    C library's [pow] of its absolute value), the velocity
    [(dx / distance * 12, dy / distance * 12)] when [distance > 0], each
    component then having the sign of its offset to the target (or being a
    NaN), and [(0, -12)] otherwise.  A fireball whose target is its source
    is constructed with velocity [(0, -12)], and one from (0, 0) to (0, 100)
    with velocity [(0, 12)], the C library squaring 100 to 10000. *)
Theorem C4_velocity_toward_target (load : option Image) :
  (forall (x y target_x target_y : float) (img : option Image) fb,
     Fireball.init load x y target_x target_y img = Py.Ok fb ->
     exists dx2 dy2 distance,
       Py.pow2 (target_x - x) = Py.Ok dx2 /\
       Py.pow2 (target_y - y) = Py.Ok dy2 /\
       Py.math_sqrt (dx2 + dy2) = Py.Ok distance /\
       (ordinary (target_x - x) -> dx2 = fst (Py.pow (abs (target_x - x)) 2)) /\
       (ordinary (target_y - y) -> dy2 = fst (Py.pow (abs (target_y - y)) 2)) /\
       Fireball.speed fb = 12 /\
       if (0 <? distance)%float
       then Fireball.vx fb = ((target_x - x) / distance * 12)%float /\
            Fireball.vy fb = ((target_y - y) / distance * 12)%float /\
            toward (target_x - x) (Fireball.vx fb) /\
            toward (target_y - y) (Fireball.vy fb)
       else Fireball.vx fb = 0%float /\ Fireball.vy fb = (-12)%float) /\
  (forall (x y : float) (img : option Image),
     exists fb, Fireball.init load x y x y img = Py.Ok fb /\
                Fireball.vx fb = 0%float /\ Fireball.vy fb = (-12)%float) /\
  (Py.pow 100 2 = (10000%float, Py.NoError) ->
   forall img : option Image,
     exists fb, Fireball.init load 0 0 0 100 img = Py.Ok fb /\
                Fireball.vx fb = 0%float /\ Fireball.vy fb = 12%float).
Proof.
  split; [|split].
  - intros x y tx ty img fb. unfold Fireball.init.
    destruct (Py.pow2 (tx - x)) as [dx2|] eqn:E1; [|discriminate]. cbn [Py.rbind].
    destruct (Py.pow2 (ty - y)) as [dy2|] eqn:E2; [|discriminate]. cbn [Py.rbind].
    destruct (Py.math_sqrt (dx2 + dy2)) as [d|] eqn:E3; [|discriminate].
    cbn [Py.rbind]. intros [= <-]. exists dx2, dy2, d.
    do 2 (split; [reflexivity|]). split; [exact E3|].
    split; [now apply pow2_ordinary|]. split; [now apply pow2_ordinary|].
    split; [reflexivity|].
    cbn [Fireball.vx Fireball.vy].
    destruct (0 <? d)%float eqn:Ed; cbn [fst snd]; [|now split].
    split; [reflexivity|]. split; [reflexivity|].
    split; now apply toward_velocity.
  - intros x y img. unfold Fireball.init.
    destruct (sub_diag x) as [-> | ->], (sub_diag y) as [-> | ->];
      eexists; (split; [reflexivity|split; reflexivity]).
  - intros Hpow img.
    assert (E : Py.pow2 100 = Py.Ok 10000%float).
    { unfold Py.pow2. cbn. rewrite Hpow. reflexivity. }
    unfold Fireball.init.
    change (0 - 0)%float with 0%float. change (100 - 0)%float with 100%float.
    rewrite E. eexists. split; [reflexivity|split; reflexivity].
Qed.

End FireballFacts.

(** A fireball shot from (0, 0) at (3, 4), with the demo library: the
    distance is 5; and the shot at (0, 100) with it. *)
Lemma C4_witness :
  (exists fb,
     Fireball.init (Image := unit) (M := Demo.libm) None 0 0 3 4 None
     = Py.Ok fb /\
     exists dx2 dy2 distance,
       Py.pow2 (M := Demo.libm) (3 - 0) = Py.Ok dx2 /\
       Py.pow2 (M := Demo.libm) (4 - 0) = Py.Ok dy2 /\
       Py.math_sqrt (dx2 + dy2) = Py.Ok distance /\
       (ordinary (3 - 0) ->
        dx2 = fst (Py.pow (Libm := Demo.libm) (abs (3 - 0)) 2)) /\
       (ordinary (4 - 0) ->
        dy2 = fst (Py.pow (Libm := Demo.libm) (abs (4 - 0)) 2)) /\
       Fireball.speed fb = 12 /\
       if (0 <? distance)%float
       then Fireball.vx fb = ((3 - 0) / distance * 12)%float /\
            Fireball.vy fb = ((4 - 0) / distance * 12)%float /\
            toward (3 - 0) (Fireball.vx fb) /\
            toward (4 - 0) (Fireball.vy fb)
       else Fireball.vx fb = 0%float /\ Fireball.vy fb = (-12)%float) /\
  (Py.pow (Libm := Demo.libm) 100 2 = (10000%float, Py.NoError) /\
   exists fb,
     Fireball.init (Image := unit) (M := Demo.libm) None 0 0 0 100 None
     = Py.Ok fb /\
     Fireball.vx fb = 0%float /\ Fireball.vy fb = 12%float).
Proof.
  split.
  - eexists. split; [vm_compute; reflexivity|].
    apply (proj1 (C4_velocity_toward_target (M := Demo.libm) None)
             0%float 0%float 3%float 4%float None).
    reflexivity.
  - split; [reflexivity|].
    apply (proj2 (proj2 (C4_velocity_toward_target (M := Demo.libm) None))).
    reflexivity.
Defined.

(** A fireball at (748, 100) flying right at 12 pixels a frame reaches
    [x = 760] and goes inactive. *)
Lemma C5_witness :
  let self := Fireball.mk (Image := unit) 748 100 900 100 12 true [] None 12 0 15 in
  let self' := fst (Fireball.update (R := Demo.counter) (M := Demo.libm)
                      self (Demo.empty 1)) in
  ((750 <? Fireball.x self')%float = true /\ Fireball.active self' = false) /\
  (Fireball.x self' = 760%float /\ Fireball.active self' = false).
Proof.
  cbn zeta.
  pose proof (C5_off_screen_deactivates (R := Demo.counter) (M := Demo.libm)
                (Fireball.mk (Image := unit) 748 100 900 100 12 true [] None 12 0 15)
                (Demo.empty 1)) as (_ & _ & Hout & H760).
  cbn zeta in Hout, H760.
  split; split; [reflexivity| |reflexivity|].
  - apply Hout. right. left. reflexivity.
  - apply H760. reflexivity.
Defined.

(** An inactive fireball back inside the play field stays inactive. *)
Lemma C9_witness :
  let self := Fireball.mk (Image := unit) 300 400 300 0 12 false [] None 0 (-12) 15 in
  Fireball.active self = false /\
  Fireball.active (fst (Fireball.updates (R := Demo.counter) (M := Demo.libm)
                          5 self (Demo.empty 0))) = false.
Proof.
  cbn zeta. split; [reflexivity|].
  apply (C9_inactive_forever (R := Demo.counter) (M := Demo.libm) 5). reflexivity.
Defined.

(** ** The particle store *)

Section StoreFacts.
Context {G : Type}.
Implicit Types (w : world G) (l : loc) (ps : list loc).

Lemma update_at_run l w p :
  heap w !! l = Some p ->
  update_at l w
  = (snd (ExplosionParticle.update p),
     World (<[l := fst (ExplosionParticle.update p)]> (heap w)) (gen w)).
Proof.
  intros E. unfold update_at. rewrite E.
  now destruct (ExplosionParticle.update p).
Qed.

Lemma with_gen_run {A} (c : Py.State G A) w :
  with_gen c w = (fst (c (gen w)), World (heap w) (snd (c (gen w)))).
Proof. unfold with_gen. now destruct (c (gen w)). Qed.

(** The list comprehension over a list of distinct references: what is
    kept is a duplicate-free part of the list, every kept particle is alive
    in the new store, and no other object is touched or lost. *)
Lemma update_and_keep_spec ps : forall w,
  NoDup ps ->
  (forall l, l ∈ ps -> is_Some (heap w !! l)) ->
  let r := update_and_keep ps w in
  NoDup (fst r) /\
  (forall l, l ∈ fst r -> l ∈ ps) /\
  (forall l, l ∈ fst r ->
     exists p, heap (snd r) !! l = Some p /\ 0 < ExplosionParticle.life p) /\
  (forall l, l ∉ ps -> heap (snd r) !! l = heap w !! l) /\
  (forall l, is_Some (heap w !! l) -> is_Some (heap (snd r) !! l)).
Proof.
  induction ps as [|a ps IH]; intros w Hnd Hal.
  - cbn. repeat split; auto using NoDup_nil_2.
    intros l Hl. now apply elem_of_nil in Hl.
  - apply NoDup_cons in Hnd as [Ha Hnd].
    destruct (Hal a) as [p Hp]; [apply elem_of_cons; now left|].
    cbn [update_and_keep]. rewrite !bind_run, (update_at_run a w p Hp).
    cbn [fst snd Py.ret].
    set (p' := fst (ExplosionParticle.update p)).
    set (w1 := World (<[a := p']> (heap w)) (gen w)).
    assert (Hlen : forall l, is_Some (heap w !! l) -> is_Some (heap w1 !! l)).
    { intros l. rewrite !lookup_lt_is_Some. cbn. now rewrite length_insert. }
    destruct (IH w1 Hnd) as (Knd & Ksub & Kalive & Kframe & Ksome).
    { intros l Hl. apply Hlen, Hal, elem_of_cons. now right. }
    assert (Hpa : heap (snd (update_and_keep ps w1)) !! a = Some p').
    { rewrite (Kframe a Ha). cbn. apply list_lookup_insert_eq.
      apply lookup_lt_is_Some. now exists p. }
    assert (Hframe : forall l, l ∉ a :: ps ->
              heap (snd (update_and_keep ps w1)) !! l = heap w !! l).
    { intros l Hl. apply not_elem_of_cons in Hl as [Hne Hl].
      rewrite (Kframe l Hl). cbn. now apply list_lookup_insert_ne. }
    destruct (snd (ExplosionParticle.update p)) eqn:Ealive; cbn [fst snd].
    + repeat split; auto.
      * apply NoDup_cons. split; [|exact Knd]. intros Hin. apply Ha, Ksub, Hin.
      * intros l Hl. apply elem_of_cons in Hl as [->|Hl]; apply elem_of_cons;
          [now left|right; now apply Ksub].
      * intros l Hl. apply elem_of_cons in Hl as [->|Hl]; [|now apply Kalive].
        exists p'. split; [exact Hpa|].
        subst p'. cbn in Ealive |- *. now apply Z.ltb_lt.
    + repeat split; auto.
      intros l Hl. apply elem_of_cons. right. now apply Ksub.
Qed.

End StoreFacts.

(** ** ExplosionManager *)

Section ManagerFacts.
Context {G : Type} {R : Py.Random G} {M : Py.Libm}.
Implicit Types (self : ExplosionManager.t) (w : world G).

Lemma EP_init_color (x y : float) (c : rgb) (g : G) :
  ExplosionParticle.color (fst (ExplosionParticle.init x y c g)) = c.
Proof. unfold ExplosionParticle.init. now rewrite !bind_run. Qed.

(** [spawn n] constructs [n] particles of colour [c] at the end of the
    store and appends their references, in order. *)
Lemma spawn_spec (n : nat) (x y : float) (c : rgb) : forall self w,
  exists ps,
    heap (snd (ExplosionManager.spawn n x y c self w)) = heap w ++ ps /\
    ExplosionManager.particles (fst (ExplosionManager.spawn n x y c self w))
    = ExplosionManager.particles self ++ seq (length (heap w)) n /\
    ExplosionParticle.color <$> ps = replicate n c.
Proof.
  induction n as [|n IH]; intros self w.
  - exists []. cbn. now rewrite !app_nil_r.
  - cbn [ExplosionManager.spawn]. rewrite !bind_run.
    rewrite !with_gen_run. cbn [fst snd alloc heap gen].
    set (p := fst (ExplosionParticle.init x y c (gen w))).
    set (g1 := snd (ExplosionParticle.init x y c (gen w))).
    destruct (IH {| ExplosionManager.particles :=
                      ExplosionManager.particles self ++ [length (heap w)] |}
                 (World (heap w ++ [p]) g1)) as (ps & Eh & Ep & Ec).
    exists (p :: ps). rewrite Eh, Ep. cbn [heap ExplosionManager.particles].
    rewrite <- !app_assoc, length_app. cbn [length app].
    replace (length (heap w) + 1)%nat with (S (length (heap w))) by lia.
    repeat split. rewrite fmap_cons, Ec. subst p. now rewrite EP_init_color.
Qed.

Lemma create_explosion_spec self w (x y : float) (c : option rgb) (n : option Z) :
  let r := ExplosionManager.create_explosion self x y c n w in
  let k := Z.to_nat (default ExplosionManager.default_num_particles n) in
  exists ps,
    heap (snd r) = heap w ++ ps /\
    ExplosionManager.particles (fst r)
    = ExplosionManager.particles self ++ seq (length (heap w)) (k + 20 + 15) /\
    ExplosionParticle.color <$> ps
    = replicate k (default ExplosionManager.default_color c)
      ++ replicate 20 (255, 255, 255) ++ replicate 15 (255, 150, 0).
Proof.
  cbn zeta. unfold ExplosionManager.create_explosion. rewrite !bind_run.
  set (k := Z.to_nat _). set (c0 := default _ c).
  destruct (spawn_spec k x y c0 self w) as (ps1 & Eh1 & Ep1 & Ec1).
  set (r1 := ExplosionManager.spawn k x y c0 self w) in *.
  destruct (spawn_spec 20 x y (255, 255, 255) (fst r1) (snd r1))
    as (ps2 & Eh2 & Ep2 & Ec2).
  set (r2 := ExplosionManager.spawn 20 x y _ (fst r1) (snd r1)) in *.
  destruct (spawn_spec 15 x y (255, 150, 0) (fst r2) (snd r2))
    as (ps3 & Eh3 & Ep3 & Ec3).
  exists (ps1 ++ ps2 ++ ps3).
  assert (L1 : length ps1 = k).
  { rewrite <- (length_fmap ExplosionParticle.color), Ec1. apply length_replicate. }
  assert (L2 : length ps2 = 20%nat).
  { rewrite <- (length_fmap ExplosionParticle.color), Ec2. apply length_replicate. }
  rewrite Eh3, Ep3, Eh2, Ep2, Eh1, Ep1, !fmap_app, Ec1, Ec2, Ec3.
  rewrite !length_app, L1, L2, <- !app_assoc, !seq_app.
  repeat split.
  now rewrite <- !app_assoc, !Nat.add_assoc.
Qed.

Lemma update_run self w :
  ExplosionManager.update self w
  = ({| ExplosionManager.particles :=
          fst (update_and_keep (ExplosionManager.particles self) w) |},
     snd (update_and_keep (ExplosionManager.particles self) w)).
Proof. unfold ExplosionManager.update. now rewrite bind_run. Qed.

Lemma owns_update self w :
  ExplosionManager.owns (self, w) ->
  ExplosionManager.owns (ExplosionManager.update self w).
Proof.
  intros [Hnd Hal]. cbn [fst snd] in *.
  destruct (update_and_keep_spec _ w Hnd Hal) as (Knd & Ksub & _ & _ & Ksome).
  rewrite update_run. split; cbn [fst snd ExplosionManager.particles].
  - exact Knd.
  - intros l Hl. apply Ksome, Hal, Ksub, Hl.
Qed.

Lemma owns_create self w (x y : float) (c : option rgb) (n : option Z) :
  ExplosionManager.owns (self, w) ->
  ExplosionManager.owns (ExplosionManager.create_explosion self x y c n w).
Proof.
  intros [Hnd Hal]. cbn [fst snd] in *.
  destruct (create_explosion_spec self w x y c n) as (ps & Eh & Ep & Ec).
  cbn zeta in *. unfold ExplosionManager.owns. rewrite Eh, Ep.
  set (k := (_ + 20 + 15)%nat) in *.
  assert (Lps : length ps = k).
  { rewrite <- (length_fmap ExplosionParticle.color), Ec.
    rewrite !length_app, !length_replicate. subst k. lia. }
  split.
  - apply NoDup_app. split; [exact Hnd|]. split; [|apply NoDup_seq].
    intros l Hl Hseq. apply elem_of_seq in Hseq.
    apply Hal, lookup_lt_is_Some in Hl. lia.
  - intros l Hl. apply lookup_lt_is_Some. rewrite length_app.
    apply elem_of_app in Hl as [Hl|Hl].
    + apply Hal, lookup_lt_is_Some in Hl. lia.
    + apply elem_of_seq in Hl. lia.
Qed.

Lemma reachable_owns s : ExplosionManager.reachable s -> ExplosionManager.owns s.
Proof.
  induction 1 as [w|self w x y c n _ IH|self w _ IH|self w w' _ IH Hsame].
  - split; cbn; [apply NoDup_nil_2|]. intros l Hl. now apply elem_of_nil in Hl.
  - now apply owns_create.
  - now apply owns_update.
  - destruct IH as [Hnd Hal]. split; [exact Hnd|]. cbn [fst snd] in *.
    intros l Hl. rewrite (Hsame l Hl). now apply Hal.
Qed.

Lemma alive_after_update self w :
  ExplosionManager.owns (self, w) ->
  ExplosionManager.all_alive (ExplosionManager.update self w).
Proof.
  intros [Hnd Hal]. cbn [fst snd] in *.
  destruct (update_and_keep_spec _ w Hnd Hal) as (_ & _ & Kalive & _).
  rewrite update_run. intros l Hl. now apply Kalive.
Qed.

Lemma updates_snoc (n : nat) : forall self w,
  ExplosionManager.updates (S n) self w
  = ExplosionManager.update (fst (ExplosionManager.updates n self w))
                            (snd (ExplosionManager.updates n self w)).
Proof.
  induction n as [|n IH]; intros self w.
  - cbn [ExplosionManager.updates]. rewrite bind_run. unfold Py.ret.
    cbn [fst snd]. symmetry. apply surjective_pairing.
  - change (ExplosionManager.updates (S (S n)) self w)
      with (Py.bind (ExplosionManager.update self)
              (fun self' => ExplosionManager.updates (S n) self') w).
    rewrite bind_run, IH.
    change (ExplosionManager.updates (S n) self w)
      with (Py.bind (ExplosionManager.update self)
              (fun self' => ExplosionManager.updates n self') w).
    now rewrite bind_run.
Qed.

Lemma reachable_updates (n : nat) self w :
  ExplosionManager.reachable (self, w) ->
  ExplosionManager.reachable (ExplosionManager.updates n self w).
Proof.
  intros Hr. induction n as [|n IH]; [exact Hr|].
  rewrite updates_snoc. apply ExplosionManager.reach_update.
  now rewrite <- surjective_pairing.
Qed.

(** C2.  In every state a manager can be in, after one or more calls of
    [ExplosionManager.update] every particle left in its list has
    [life > 0]. *)
Theorem C2_survivors_are_alive (n : nat) self w :
  ExplosionManager.reachable (self, w) ->
  ExplosionManager.all_alive (ExplosionManager.updates (S n) self w).
Proof.
  intros Hr. rewrite updates_snoc. apply alive_after_update.
  rewrite <- surjective_pairing. apply reachable_owns, reachable_updates, Hr.
Qed.

(** C6.  [create_explosion(x, y)] with the default arguments constructs 85
    particles and appends their references to the manager's list, in order:
    50 of the default colour (255, 200, 50), then 20 of colour
    (255, 255, 255), then 15 of colour (255, 150, 0).  With an explicit
    [num_particles] (a count, so not negative) and any colour it appends
    [num_particles + 35]. *)
Theorem C6_create_explosion_appends self w (x y : float) :
  (let r := ExplosionManager.create_explosion self x y None None w in
   exists ps,
     heap (snd r) = heap w ++ ps /\
     ExplosionManager.particles (fst r)
     = ExplosionManager.particles self ++ seq (length (heap w)) 85 /\
     ExplosionParticle.color <$> ps
     = replicate 50 (255, 200, 50) ++ replicate 20 (255, 255, 255)
       ++ replicate 15 (255, 150, 0)) /\
  (forall (c : option rgb) (num_particles : Z), 0 <= num_particles ->
   let r := ExplosionManager.create_explosion self x y c (Some num_particles) w in
   exists new,
     ExplosionManager.particles (fst r) = ExplosionManager.particles self ++ new /\
     Z.of_nat (length new) = num_particles + 35).
Proof.
  split.
  - exact (create_explosion_spec self w x y None None).
  - intros c n Hn.
    destruct (create_explosion_spec self w x y c (Some n)) as (ps & _ & Ep & _).
    cbn zeta in *. eexists. split; [exact Ep|].
    rewrite length_seq.
    change (default ExplosionManager.default_num_particles (Some n)) with n.
    lia.
Qed.

End ManagerFacts.

(** A manager made in an empty world that spawns 37 particles and is then
    updated 30 times: the particles it still holds are alive. *)
Lemma C2_witness :
  let s := ExplosionManager.create_explosion (R := Demo.counter) (M := Demo.libm)
             ExplosionManager.init 320 240 None (Some 2) (Demo.empty 3) in
  ExplosionManager.reachable (R := Demo.counter) (M := Demo.libm) s /\
  ExplosionManager.all_alive (ExplosionManager.updates 30 (fst s) (snd s)).
Proof.
  cbn zeta.
  assert (Hr : ExplosionManager.reachable (R := Demo.counter) (M := Demo.libm)
                 (ExplosionManager.create_explosion
                    (R := Demo.counter) (M := Demo.libm)
                    ExplosionManager.init 320 240 None (Some 2) (Demo.empty 3))).
  { apply ExplosionManager.reach_create, ExplosionManager.reach_init. }
  split; [exact Hr|].
  apply (C2_survivors_are_alive (R := Demo.counter) (M := Demo.libm) 29).
  rewrite <- surjective_pairing. exact Hr.
Defined.

(** Aliasing is what [owns] rules out: were the same particle listed twice,
    with two frames to live, the first reference would pass the filter and
    the second call would then kill the particle behind it. *)
Remark aliased_reference_outlives_filter :
  let p := ExplosionParticle.mk 0 0 1 1 (255, 255, 255) 4 2 30 20 in
  let r := ExplosionManager.update
             {| ExplosionManager.particles := [0%nat; 0%nat] |}
             (World [p] 0) in
  ExplosionManager.particles (fst r) = [0%nat] /\
  ExplosionParticle.life <$> heap (snd r) !! 0%nat = Some 0.
Proof. split; reflexivity. Qed.

Lemma C6_witness :
  let r := ExplosionManager.create_explosion (R := Demo.counter) (M := Demo.libm)
             ExplosionManager.init 320 240 (Some (0, 255, 0)) (Some 10)
             (Demo.empty 3) in
  0 <= 10 /\
  exists new,
    ExplosionManager.particles (fst r)
    = ExplosionManager.particles ExplosionManager.init ++ new /\
    Z.of_nat (length new) = 10 + 35.
Proof.
  cbn zeta. split; [lia|].
  apply (proj2 (C6_create_explosion_appends (R := Demo.counter) (M := Demo.libm)
                  ExplosionManager.init (Demo.empty 3) 320 240)
           (Some (0, 255, 0)) 10).
  lia.
Defined.

(** ** Particle.draw *)

Section DrawFacts.
#[local] Open Scope float_scope.

(** [int] answers on every finite float. *)
Lemma int_finite (x : float) : is_finite x = true -> exists n, Py.int x = Py.Ok n.
Proof.
  unfold is_finite, is_nan, is_infinity, Py.int.
  rewrite !FloatAxioms.eqb_spec, abs_spec.
  destruct (Prim2SF x) as [s|s| |s m e]; eauto.
  - intros E. exfalso. revert E. now destruct s.
  - intros E. exfalso. revert E. now cbn.
Qed.

End DrawFacts.

(** C8, as the code has it.  A [Particle] with [age < lifetime] whose
    [x], [y] and [size] are finite draws exactly one filled circle of its
    colour, centred at [(int(x), int(y))], the position truncated toward
    zero, with radius [int(size)]; a particle with [age >= lifetime] draws
    nothing. *)
Theorem C8_draw_truncates (p : Particle.t) :
  (Particle.age p < Particle.lifetime p ->
   is_finite (Particle.x p) = true ->
   is_finite (Particle.y p) = true ->
   is_finite (Particle.size p) = true ->
   exists cx cy r,
     Py.int (Particle.x p) = Py.Ok cx /\
     Py.int (Particle.y p) = Py.Ok cy /\
     Py.int (Particle.size p) = Py.Ok r /\
     Particle.draw p = Py.Ok [Particle.Circle (Particle.color p) (cx, cy) r]) /\
  (Particle.lifetime p <= Particle.age p -> Particle.draw p = Py.Ok []).
Proof.
  unfold Particle.draw. split.
  - intros Hage Hx Hy Hs.
    destruct (int_finite _ Hx) as [cx Ex], (int_finite _ Hy) as [cy Ey],
             (int_finite _ Hs) as [r Er].
    exists cx, cy, r. apply Z.ltb_lt in Hage.
    rewrite Hage, Ex, Ey, Er. now cbn.
  - intros Hage. apply Z.ltb_ge in Hage. now rewrite Hage.
Qed.

(** A new particle at (2.75, 10.5) of size 2.5: it is young and its
    coordinates are finite, so it is drawn, truncated. *)
Lemma C8_witness :
  let p := Particle.mk 2.75 10.5 (255, 0, 0) 2.5 1 (-2) 0.3 30 0 in
  (Particle.age p < Particle.lifetime p /\
   is_finite (Particle.x p) = true /\
   is_finite (Particle.y p) = true /\
   is_finite (Particle.size p) = true) /\
  exists cx cy r,
    Py.int (Particle.x p) = Py.Ok cx /\
    Py.int (Particle.y p) = Py.Ok cy /\
    Py.int (Particle.size p) = Py.Ok r /\
    Particle.draw p = Py.Ok [Particle.Circle (Particle.color p) (cx, cy) r].
Proof.
  cbn zeta. split; [repeat split|].
  apply (proj1 (C8_draw_truncates
                  (Particle.mk 2.75 10.5 (255, 0, 0) 2.5 1 (-2) 0.3 30 0)));
    reflexivity.
Defined.

(** C8, as the specification words it, fails: the particle above would be
    drawn at [(round(2.75), round(10.5))], which is (3, 10), and with its
    size 2.5 as radius; the code draws it at (2, 10) with radius 2. *)
Lemma C8_counterexample :
  let p := Particle.mk 2.75 10.5 (255, 0, 0) 2.5 1 (-2) 0.3 30 0 in
  Particle.age p < Particle.lifetime p /\
  Py.round (Particle.x p) = Py.Ok 3 /\
  Particle.draw p = Py.Ok [Particle.Circle (255, 0, 0) (2, 10) 2] /\
  ~ Particle.draws_rounded p (Particle.draw p).
Proof.
  cbn zeta. repeat split.
  intros (cx & cy & r & Ex & _ & _ & Ed).
  vm_compute in Ex, Ed. congruence.
Qed.

(** * Further properties *)

(** ** The life of an explosion particle *)

Lemma EP_updates_life (k : nat) (p : ExplosionParticle.t) :
  ExplosionParticle.life (ExplosionParticle.updates k p)
  = ExplosionParticle.life p - Z.of_nat k.
Proof.
  induction k as [|k IH]; [cbn; lia|].
  rewrite EP_updates_S. cbn [ExplosionParticle.update fst ExplosionParticle.life].
  rewrite IH. lia.
Qed.

Lemma EP_alive_iff (p : ExplosionParticle.t) (k : nat) :
  snd (ExplosionParticle.update (ExplosionParticle.updates k p)) = true <->
  Z.of_nat k + 1 < ExplosionParticle.life p.
Proof.
  cbn [ExplosionParticle.update snd]. rewrite EP_updates_life, Z.ltb_lt. lia.
Qed.

(** X1.  [update] counts [life] down by one a call, so call number [k + 1]
    on a particle answers [True] exactly when [k + 1 < life]: a particle
    that starts with [life = L >= 1] is reported alive by its first [L - 1]
    updates and dead by every later one. *)
Theorem X1_alive_for_life_minus_one_updates (p : ExplosionParticle.t) (k : nat) :
  ExplosionParticle.life (ExplosionParticle.updates k p)
  = ExplosionParticle.life p - Z.of_nat k /\
  (snd (ExplosionParticle.update (ExplosionParticle.updates k p)) = true <->
   Z.of_nat k + 1 < ExplosionParticle.life p).
Proof.
  split; [apply EP_updates_life|apply EP_alive_iff].
Qed.

Section ConstructorFacts.
Context {G : Type} {R : Py.Random G} {M : Py.Libm} {HR : Py.RandomOk G}.

Lemma EP_init_ranges (x y : float) (c : rgb) (g : G) :
  let p0 := fst (ExplosionParticle.init x y c g) in
  ExplosionParticle.x p0 = x /\ ExplosionParticle.y p0 = y /\
  ExplosionParticle.color p0 = c /\
  (exists k, 4 <= k <= 10 /\ ExplosionParticle.size p0 = Py.of_int k) /\
  25 <= ExplosionParticle.life p0 <= 45 /\
  ExplosionParticle.max_life p0 = ExplosionParticle.life p0 /\
  15 <= ExplosionParticle.glow_size p0 <= 30.
Proof.
  unfold ExplosionParticle.init. rewrite !bind_run. cbn [Py.ret fst].
  cbn [ExplosionParticle.x ExplosionParticle.y ExplosionParticle.color
       ExplosionParticle.size ExplosionParticle.life ExplosionParticle.max_life
       ExplosionParticle.glow_size].
  repeat split; try (apply randint_range; lia).
  eexists. split; [|reflexivity]. apply randint_range. lia.
Qed.

(** X2.  With a random source that keeps Python's promises, the
    constructor places the particle at the given point with the given
    colour, and draws an integer [size] from 4..10, a [life] from 25..45
    that it also records as [max_life], and a [glow_size] from 15..30. *)
Theorem X2_constructor_ranges (x y : float) (c : rgb) (g : G) :
  let p0 := fst (ExplosionParticle.init x y c g) in
  ExplosionParticle.x p0 = x /\ ExplosionParticle.y p0 = y /\
  ExplosionParticle.color p0 = c /\
  (exists k, 4 <= k <= 10 /\ ExplosionParticle.size p0 = Py.of_int k) /\
  25 <= ExplosionParticle.life p0 <= 45 /\
  ExplosionParticle.max_life p0 = ExplosionParticle.life p0 /\
  15 <= ExplosionParticle.glow_size p0 <= 30.
Proof. exact (EP_init_ranges x y c g). Qed.

(** X3.  A particle from the constructor is reported alive by each of its
    first 24 updates and dead by the 45th and every later one: an explosion
    particle is on screen for 24 to 44 frames after the frame that made it. *)
Theorem X3_constructed_lives_24_to_44_updates
    (x y : float) (c : rgb) (g : G) (k : nat) :
  let p0 := fst (ExplosionParticle.init x y c g) in
  ((k < 24)%nat ->
   snd (ExplosionParticle.update (ExplosionParticle.updates k p0)) = true) /\
  ((44 <= k)%nat ->
   snd (ExplosionParticle.update (ExplosionParticle.updates k p0)) = false).
Proof.
  intros p0.
  destruct (EP_init_ranges x y c g) as (_ & _ & _ & _ & Hl & _).
  fold p0 in Hl. pose proof (EP_alive_iff p0 k) as Hk.
  split; intros Hlt.
  - apply Hk. lia.
  - destruct (snd _); [|reflexivity].
    assert (Z.of_nat k + 1 < ExplosionParticle.life p0); [now apply Hk|lia].
Qed.

End ConstructorFacts.

Lemma X2_witness :
  let p0 := fst (ExplosionParticle.init (R := Demo.counter) (M := Demo.libm)
                   320 240 (255, 200, 50) 11) in
  ExplosionParticle.x p0 = 320%float /\ ExplosionParticle.y p0 = 240%float /\
  ExplosionParticle.color p0 = (255, 200, 50) /\
  (exists k, 4 <= k <= 10 /\ ExplosionParticle.size p0 = Py.of_int k) /\
  25 <= ExplosionParticle.life p0 <= 45 /\
  ExplosionParticle.max_life p0 = ExplosionParticle.life p0 /\
  15 <= ExplosionParticle.glow_size p0 <= 30.
Proof.
  exact (X2_constructor_ranges (HR := Demo_counter_ok) 320 240 (255, 200, 50) 11).
Defined.

Lemma X3_witness :
  let p0 := fst (ExplosionParticle.init (R := Demo.counter) (M := Demo.libm)
                   320 240 (255, 200, 50) 11) in
  snd (ExplosionParticle.update (ExplosionParticle.updates 23 p0)) = true /\
  snd (ExplosionParticle.update (ExplosionParticle.updates 44 p0)) = false.
Proof.
  cbn zeta. split.
  - apply (X3_constructed_lives_24_to_44_updates (HR := Demo_counter_ok)
             320 240 (255, 200, 50) 11 23). lia.
  - apply (X3_constructed_lives_24_to_44_updates (HR := Demo_counter_ok)
             320 240 (255, 200, 50) 11 44). lia.
Defined.

(** ** The list comprehension, exactly *)

Lemma filter_twice {A} (f g : A -> bool) (l : list A) :
  List.filter f (List.filter g l) = List.filter (fun a => g a && f a) l.
Proof.
  induction l as [|a l IH]; [reflexivity|].
  cbn. destruct (g a); cbn; [destruct (f a)|]; now rewrite IH.
Qed.

Lemma filter_none {A} (f : A -> bool) (l : list A) :
  (forall a, In a l -> f a = false) -> List.filter f l = [].
Proof.
  induction l as [|a l IH]; intros Hf; [reflexivity|].
  cbn. rewrite (Hf a (or_introl eq_refl)). apply IH.
  intros b Hb. apply Hf. now right.
Qed.

Lemma filter_length_le {A} (f : A -> bool) (l : list A) :
  (length (List.filter f l) <= length l)%nat.
Proof.
  induction l as [|a l IH]; [reflexivity|].
  cbn. destruct (f a); cbn; lia.
Qed.

Section StoreExact.
Context {G : Type}.
Implicit Types (w : world G) (l : loc) (ps : list loc).

Lemma life_at_same w w' l :
  heap w' !! l = heap w !! l -> life_at w' l = life_at w l.
Proof. unfold life_at. now intros ->. Qed.

(** On distinct references the comprehension keeps, in order, the
    particles with more than one frame to live, updates every listed
    particle once, and changes nothing else: neither another object, nor
    the size of the store, nor the random generator. *)
Lemma update_and_keep_exact ps : forall w,
  NoDup ps ->
  (forall l, l ∈ ps -> is_Some (heap w !! l)) ->
  let r := update_and_keep ps w in
  fst r = List.filter (fun l => 1 <? life_at w l) ps /\
  gen (snd r) = gen w /\
  length (heap (snd r)) = length (heap w) /\
  (forall l, l ∈ ps ->
     heap (snd r) !! l
     = (fun p => fst (ExplosionParticle.update p)) <$> heap w !! l) /\
  (forall l, l ∉ ps -> heap (snd r) !! l = heap w !! l).
Proof.
  induction ps as [|a ps IH]; intros w Hnd Hal.
  - cbn. repeat split; auto. intros l Hl. now apply elem_of_nil in Hl.
  - apply NoDup_cons in Hnd as [Ha Hnd].
    destruct (Hal a) as [p Hp]; [apply elem_of_cons; now left|].
    cbn [update_and_keep]. rewrite !bind_run, (update_at_run a w p Hp).
    cbn [fst snd Py.ret].
    set (p' := fst (ExplosionParticle.update p)).
    set (w1 := World (<[a := p']> (heap w)) (gen w)).
    assert (Hne : forall l, l <> a -> heap w1 !! l = heap w !! l).
    { intros l Hl. cbn. now apply list_lookup_insert_ne. }
    assert (Hin : forall l, l ∈ ps -> heap w1 !! l = heap w !! l).
    { intros l Hl. apply Hne. intros ->. contradiction. }
    destruct (IH w1 Hnd) as (Kf & Kg & Kl & Kin & Kout).
    { intros l Hl. rewrite (Hin l Hl). apply Hal, elem_of_cons. now right. }
    assert (Ef : List.filter (fun l => 1 <? life_at w1 l) ps
                 = List.filter (fun l => 1 <? life_at w l) ps).
    { apply List.filter_ext_in. intros l Hl.
      rewrite (life_at_same w w1 l); [reflexivity|].
      apply Hin, list_elem_of_In, Hl. }
    assert (Ea : snd (ExplosionParticle.update p) = (1 <? life_at w a)).
    { unfold life_at. rewrite Hp. cbn.
      destruct (Z.ltb_spec 0 (ExplosionParticle.life p - 1)),
               (Z.ltb_spec 1 (ExplosionParticle.life p)); auto; lia. }
    repeat split.
    + cbn [List.filter]. rewrite <- Ea, <- Ef, <- Kf.
      now destruct (snd (ExplosionParticle.update p)).
    + exact Kg.
    + rewrite Kl. cbn. apply length_insert.
    + intros l Hl. apply elem_of_cons in Hl as [->|Hl].
      * rewrite (Kout a Ha), Hp. cbn. apply list_lookup_insert_eq.
        apply lookup_lt_is_Some. now exists p.
      * rewrite (Kin l Hl), (Hin l Hl). reflexivity.
    + intros l Hl. apply not_elem_of_cons in Hl as [Hla Hl].
      rewrite (Kout l Hl). now apply Hne.
Qed.

End StoreExact.

(** ** ExplosionManager over many frames *)

Section ManagerFrames.
Context {G : Type} {R : Py.Random G} {M : Py.Libm}.
Implicit Types (self : ExplosionManager.t) (w : world G) (l : loc).

Lemma manager_updates_exact self w (n : nat) :
  ExplosionManager.owns (self, w) ->
  let r := ExplosionManager.updates (S n) self w in
  ExplosionManager.particles (fst r)
  = List.filter (fun l => Z.of_nat (S n) <? life_at w l)
      (ExplosionManager.particles self) /\
  (forall l, l ∈ ExplosionManager.particles (fst r) ->
     heap (snd r) !! l = ExplosionParticle.updates (S n) <$> heap w !! l) /\
  (forall l, l ∉ ExplosionManager.particles self ->
     heap (snd r) !! l = heap w !! l) /\
  gen (snd r) = gen w /\
  length (heap (snd r)) = length (heap w).
Proof.
  intros [Hnd Hal]. cbn [fst snd] in Hnd, Hal. cbn zeta.
  induction n as [|n (IHp & IHin & IHout & IHg & IHl)].
  - rewrite updates_snoc. cbn [ExplosionManager.updates Py.ret fst snd].
    rewrite update_run. cbn [fst snd ExplosionManager.particles].
    destruct (update_and_keep_exact _ w Hnd Hal) as (Kf & Kg & Kl & Kin & Kout).
    rewrite Kf. repeat split; auto.
    intros l Hl. apply Kin.
    apply list_elem_of_In, List.filter_In in Hl as [Hl _].
    now apply list_elem_of_In.
  - rewrite updates_snoc.
    set (rn := ExplosionManager.updates (S n) self w) in *.
    rewrite update_run. cbn [fst snd ExplosionManager.particles].
    assert (Hsub : forall l, l ∈ ExplosionManager.particles (fst rn) ->
                     l ∈ ExplosionManager.particles self).
    { intros l. rewrite IHp, !list_elem_of_In, List.filter_In. tauto. }
    assert (Hndn : NoDup (ExplosionManager.particles (fst rn))).
    { rewrite IHp. apply NoDup_ListNoDup, List.NoDup_filter.
      now apply NoDup_ListNoDup. }
    assert (Haln : forall l, l ∈ ExplosionManager.particles (fst rn) ->
                     is_Some (heap (snd rn) !! l)).
    { intros l Hl. rewrite (IHin l Hl).
      destruct (Hal l (Hsub l Hl)) as [p ->]. now eexists. }
    destruct (update_and_keep_exact _ (snd rn) Hndn Haln)
      as (Kf & Kg & Kl & Kin & Kout).
    assert (Elife : forall l, l ∈ ExplosionManager.particles (fst rn) ->
                      life_at (snd rn) l = life_at w l - Z.of_nat (S n)).
    { intros l Hl. unfold life_at. rewrite (IHin l Hl).
      destruct (Hal l (Hsub l Hl)) as [p ->]. cbn [fmap option_fmap option_map].
      apply EP_updates_life. }
    repeat split.
    + rewrite Kf.
      rewrite (List.filter_ext_in
                 (fun l => 1 <? life_at (snd rn) l)
                 (fun l => Z.of_nat (S (S n)) <? life_at w l)).
      * rewrite IHp, filter_twice. apply List.filter_ext. intros l.
        destruct (Z.ltb_spec (Z.of_nat (S n)) (life_at w l)),
                 (Z.ltb_spec (Z.of_nat (S (S n))) (life_at w l)); cbn; auto; lia.
      * intros l Hl. rewrite (Elife l); [|now apply list_elem_of_In].
        destruct (Z.ltb_spec 1 (life_at w l - Z.of_nat (S n))),
                 (Z.ltb_spec (Z.of_nat (S (S n))) (life_at w l)); auto; lia.
    + intros l Hl.
      assert (Hln : l ∈ ExplosionManager.particles (fst rn)).
      { rewrite Kf in Hl.
        apply list_elem_of_In, List.filter_In in Hl as [Hl _].
        now apply list_elem_of_In. }
      rewrite (Kin l Hln), (IHin l Hln).
      destruct (heap w !! l); reflexivity.
    + intros l Hl. rewrite Kout; [now apply IHout|].
      intros Hln. apply Hl, Hsub, Hln.
    + now rewrite Kg.
    + now rewrite Kl.
Qed.

(** X4.  [n + 1] updates of a manager whose list holds distinct
    references keep, in their order, exactly the particles that had more
    than [n + 1] frames to live; each of these has been updated [n + 1]
    times, and no object outside the list, nor the size of the store, nor
    the random generator has changed. *)
Theorem X4_updates_keep_the_long_lived self w (n : nat) :
  ExplosionManager.owns (self, w) ->
  let r := ExplosionManager.updates (S n) self w in
  ExplosionManager.particles (fst r)
  = List.filter (fun l => Z.of_nat (S n) <? life_at w l)
      (ExplosionManager.particles self) /\
  (forall l, l ∈ ExplosionManager.particles (fst r) ->
     heap (snd r) !! l = ExplosionParticle.updates (S n) <$> heap w !! l) /\
  (forall l, l ∉ ExplosionManager.particles self ->
     heap (snd r) !! l = heap w !! l) /\
  gen (snd r) = gen w /\
  length (heap (snd r)) = length (heap w).
Proof. exact (manager_updates_exact self w n). Qed.

(** Whatever holds of every constructed particle holds of the particles
    an explosion adds to the store. *)
Lemma spawn_all (P : ExplosionParticle.t -> Prop) (x y : float) (c : rgb) :
  (forall g, P (fst (ExplosionParticle.init x y c g))) ->
  forall (n : nat) self w,
    exists ps,
      heap (snd (ExplosionManager.spawn n x y c self w)) = heap w ++ ps /\
      Forall P ps.
Proof.
  intros HP. induction n as [|n IH]; intros self w.
  - exists []. cbn. now rewrite app_nil_r.
  - cbn [ExplosionManager.spawn]. rewrite !bind_run, !with_gen_run.
    cbn [fst snd alloc heap gen].
    edestruct IH as (ps & -> & HF).
    eexists (_ :: ps). cbn [heap]. rewrite <- app_assoc. split; [reflexivity|].
    apply Forall_cons. split; [apply HP|exact HF].
Qed.

Lemma create_explosion_all (P : ExplosionParticle.t -> Prop) (x y : float) :
  (forall c g, P (fst (ExplosionParticle.init x y c g))) ->
  forall self w (c : option rgb) (n : option Z),
    exists ps,
      heap (snd (ExplosionManager.create_explosion self x y c n w))
      = heap w ++ ps /\
      Forall P ps.
Proof.
  intros HP self w c n. unfold ExplosionManager.create_explosion.
  rewrite !bind_run.
  edestruct (spawn_all P x y (255, 150, 0) (HP _) 15) as (ps3 & -> & H3).
  edestruct (spawn_all P x y (255, 255, 255) (HP _) 20) as (ps2 & -> & H2).
  edestruct (spawn_all P x y (default ExplosionManager.default_color c)
               (HP _)) as (ps1 & -> & H1).
  exists (ps1 ++ ps2 ++ ps3). rewrite <- !app_assoc. split; [reflexivity|].
  apply Forall_app. split; [exact H1|]. apply Forall_app. now split.
Qed.

(** The references an explosion appends point at its new particles. *)
Lemma create_explosion_lookup (P : ExplosionParticle.t -> Prop)
    self w (x y : float) (c : option rgb) (n : option Z) :
  (forall c g, P (fst (ExplosionParticle.init x y c g))) ->
  ExplosionManager.owns (self, w) ->
  let r := ExplosionManager.create_explosion self x y c n w in
  forall l, l ∈ ExplosionManager.particles (fst r) ->
    (l ∈ ExplosionManager.particles self /\ heap (snd r) !! l = heap w !! l) \/
    ((l ∉ ExplosionManager.particles self) /\
     exists p, heap (snd r) !! l = Some p /\ P p).
Proof.
  intros HP [Hnd Hal]. cbn [fst snd] in Hnd, Hal. cbn zeta.
  destruct (create_explosion_spec self w x y c n) as (ps & Eh & Ep & Ec).
  destruct (create_explosion_all P x y HP self w c n) as (ps' & Eh' & HF).
  cbn zeta in Eh, Ep, Ec.
  assert (ps' = ps) as -> by (eapply app_inv_head; now rewrite <- Eh, <- Eh').
  set (k := (_ + 20 + 15)%nat) in *.
  assert (Lps : length ps = k).
  { rewrite <- (length_fmap ExplosionParticle.color), Ec.
    rewrite !length_app, !length_replicate. subst k. lia. }
  intros l. rewrite Ep, Eh, elem_of_app. intros [Hl|Hl].
  - left. split; [exact Hl|]. apply lookup_app_l, lookup_lt_is_Some, Hal, Hl.
  - right. apply elem_of_seq in Hl. split.
    + intros Hold. apply Hal, lookup_lt_is_Some in Hold. lia.
    + rewrite lookup_app_r by lia.
      destruct (ps !! (l - length (heap w))%nat) as [p|] eqn:E.
      * exists p. split; [reflexivity|].
        eapply Forall_lookup_1; [exact HF|exact E].
      * apply lookup_ge_None in E. lia.
Qed.

Context {HR : Py.RandomOk G}.

(** Every particle a manager holds has between 1 and 45 frames to live. *)
Lemma reachable_lives s :
  ExplosionManager.reachable s ->
  forall l, l ∈ ExplosionManager.particles (fst s) ->
            0 < life_at (snd s) l <= 45.
Proof.
  induction 1 as [w|self w x y c n Hr IH|self w Hr IH|self w w' Hr IH Hsame].
  - intros l Hl. now apply elem_of_nil in Hl.
  - intros l Hl.
    destruct (create_explosion_lookup
                (fun p => 25 <= ExplosionParticle.life p <= 45)
                self w x y c n) with (l := l) as [[Hold E]|[_ (p & E & Hp)]].
    + intros c' g. apply (EP_init_ranges x y c' g).
    + now apply reachable_owns.
    + exact Hl.
    + unfold life_at. rewrite E. now apply IH.
    + unfold life_at. rewrite E. lia.
  - pose proof (reachable_owns _ Hr) as [Hnd Hal]. cbn [fst snd] in *.
    destruct (update_and_keep_exact _ w Hnd Hal) as (Kf & _ & _ & Kin & _).
    rewrite update_run. cbn [fst snd ExplosionManager.particles].
    intros l Hl. rewrite Kf in Hl.
    apply list_elem_of_In, List.filter_In in Hl as [Hl Hlife].
    apply list_elem_of_In in Hl. apply Z.ltb_lt in Hlife.
    specialize (IH l Hl). unfold life_at in *. rewrite (Kin l Hl).
    destruct (heap w !! l) as [p|]; cbn in *; lia.
  - cbn [fst snd] in *. intros l Hl.
    rewrite (life_at_same w w' l); [now apply IH|now apply Hsame].
Qed.

(** X5.  Left alone for 45 updates, a manager holds no particle any more,
    whatever explosions it was given before: every particle it ever holds
    has at most 45 frames to live. *)
Theorem X5_empty_after_45_updates self w :
  ExplosionManager.reachable (self, w) ->
  ExplosionManager.particles (fst (ExplosionManager.updates 45 self w)) = [].
Proof.
  intros Hr.
  destruct (manager_updates_exact self w 44 (reachable_owns _ Hr)) as (-> & _).
  apply filter_none. intros l Hl. apply Z.ltb_ge.
  pose proof (reachable_lives _ Hr l (proj2 (list_elem_of_In _ _) Hl)) as Hlife.
  cbn [snd] in Hlife. lia.
Qed.

(** X6.  The 85 particles of a default explosion all stay in the list
    through the next 24 updates. *)
Theorem X6_explosion_lasts_24_updates self w (x y : float) (k : nat) :
  ExplosionManager.reachable (self, w) ->
  (k <= 24)%nat ->
  let s := ExplosionManager.create_explosion self x y None None w in
  forall l, l ∈ seq (length (heap w)) 85 ->
    l ∈ ExplosionManager.particles
          (fst (ExplosionManager.updates k (fst s) (snd s))).
Proof.
  intros Hr Hk s l Hl.
  assert (Hrs : ExplosionManager.reachable s)
    by now apply ExplosionManager.reach_create.
  assert (Hin : l ∈ ExplosionManager.particles (fst s)).
  { destruct (create_explosion_spec self w x y None None) as (ps & _ & Ep & _).
    cbn zeta in Ep. fold s in Ep. rewrite Ep. apply elem_of_app. now right. }
  assert (Hlife : 25 <= life_at (snd s) l).
  { destruct (create_explosion_lookup
                (fun p => 25 <= ExplosionParticle.life p <= 45)
                self w x y None None) with (l := l)
      as [[Hold _]|[_ (p & E & Hp)]].
    - intros c' g. apply (EP_init_ranges x y c' g).
    - now apply reachable_owns.
    - exact Hin.
    - apply elem_of_seq in Hl.
      destruct (reachable_owns _ Hr) as [_ Hal].
      apply Hal, lookup_lt_is_Some in Hold. cbn [snd] in Hold. lia.
    - unfold life_at. fold s in E. rewrite E. lia. }
  destruct k as [|k]; [exact Hin|].
  rewrite (surjective_pairing s) in Hrs.
  destruct (manager_updates_exact (fst s) (snd s) k (reachable_owns _ Hrs))
    as (-> & _).
  apply list_elem_of_In, List.filter_In. split; [now apply list_elem_of_In|].
  apply Z.ltb_lt. lia.
Qed.

End ManagerFrames.

Lemma X4_witness :
  let s := ExplosionManager.create_explosion (R := Demo.counter) (M := Demo.libm)
             ExplosionManager.init 320 240 None (Some 2) (Demo.empty 3) in
  ExplosionManager.owns s /\
  ExplosionManager.particles
    (fst (ExplosionManager.updates 30 (fst s) (snd s)))
  = List.filter (fun l => Z.of_nat 30 <? life_at (snd s) l)
      (ExplosionManager.particles (fst s)).
Proof.
  intros s.
  assert (Ho : ExplosionManager.owns s).
  { apply (reachable_owns (R := Demo.counter) (M := Demo.libm)).
    apply ExplosionManager.reach_create, ExplosionManager.reach_init. }
  split; [exact Ho|].
  rewrite (surjective_pairing s) in Ho.
  exact (proj1 (X4_updates_keep_the_long_lived (fst s) (snd s) 29 Ho)).
Defined.

Lemma X5_witness :
  let s := ExplosionManager.create_explosion (R := Demo.counter) (M := Demo.libm)
             ExplosionManager.init 320 240 None (Some 2) (Demo.empty 3) in
  ExplosionManager.reachable (R := Demo.counter) (M := Demo.libm) s /\
  ExplosionManager.particles
    (fst (ExplosionManager.updates 45 (fst s) (snd s))) = [].
Proof.
  cbn zeta.
  assert (Hr : ExplosionManager.reachable (R := Demo.counter) (M := Demo.libm)
                 (ExplosionManager.create_explosion
                    (R := Demo.counter) (M := Demo.libm)
                    ExplosionManager.init 320 240 None (Some 2) (Demo.empty 3))).
  { apply ExplosionManager.reach_create, ExplosionManager.reach_init. }
  split; [exact Hr|].
  apply (X5_empty_after_45_updates (R := Demo.counter) (M := Demo.libm)
           (HR := Demo_counter_ok)).
  rewrite <- surjective_pairing. exact Hr.
Defined.

Lemma X6_witness :
  let s := ExplosionManager.create_explosion (R := Demo.counter) (M := Demo.libm)
             ExplosionManager.init 320 240 None None (Demo.empty 3) in
  (24 <= 24)%nat /\
  84%nat ∈ seq 0 85 /\
  84%nat ∈ ExplosionManager.particles
             (fst (ExplosionManager.updates 24 (fst s) (snd s))).
Proof.
  cbn zeta. split; [lia|].
  assert (Hin : 84%nat ∈ seq 0 85) by (apply elem_of_seq; lia).
  split; [exact Hin|].
  apply (X6_explosion_lasts_24_updates (R := Demo.counter) (M := Demo.libm)
           (HR := Demo_counter_ok) ExplosionManager.init (Demo.empty 3)
           320 240 24).
  - apply ExplosionManager.reach_init.
  - lia.
  - exact Hin.
Defined.

(** ** How long a [Particle] lasts *)

Lemma Particle_updates_size (n : nat) (p : Particle.t) :
  Particle.size (Particle.updates n p) = Particle.shrunk n (Particle.size p).
Proof.
  induction n as [|n IH]; [reflexivity|].
  rewrite Particle_updates_S. cbn [Particle.update Particle.size].
  rewrite IH. reflexivity.
Qed.

(** The sizes 3..6 over the first 30 frames: only a size of 3 gets down to
    1, and it does so at frame 20. *)
Lemma shrunk_table (k : Z) (n : nat) :
  3 <= k <= 6 -> (n < 30)%nat ->
  (Particle.shrunk n (Py.of_int k) <=? 1)%float
  = (k =? 3) && (20 <=? Z.of_nat n).
Proof.
  intros Hk Hn.
  assert (T : forallb (fun k =>
                forallb (fun n =>
                  Bool.eqb (Particle.shrunk n (Py.of_int k) <=? 1)%float
                           ((k =? 3) && (20 <=? Z.of_nat n)))
                  (List.seq 0 30))
                [3; 4; 5; 6] = true) by (vm_compute; reflexivity).
  rewrite forallb_forall in T.
  assert (Hin : In k [3; 4; 5; 6]) by (cbn; lia).
  specialize (T k Hin). rewrite forallb_forall in T.
  apply Bool.eqb_prop, T, List.in_seq. lia.
Qed.

(** X7.  A [Particle] from the constructor, whose size is drawn from
    3..6, is dead after [n] updates exactly when [n >= 30], or when its size
    was 3 and [n >= 20]: the smallest particles shrink to size 1 and die
    after 20 frames, all others live out their 30 frames. *)
Theorem X7_particle_dies_at_30_or_20
    {G : Type} {R : Py.Random G} {HR : Py.RandomOk G}
    (x y : float) (c : rgb) (g : G) :
  let p0 := fst (Particle.init x y c g) in
  exists k, 3 <= k <= 6 /\ Particle.size p0 = Py.of_int k /\
    forall n : nat,
      Particle.is_dead (Particle.updates n p0) = true <->
      (30 <= n)%nat \/ (k = 3 /\ (20 <= n)%nat).
Proof.
  intros p0. destruct (Particle_init_fields x y c g) as (Ha & Hl & Hs).
  fold p0 in Ha, Hl, Hs.
  exists (fst (Py.randint 3 6 g)). split; [apply randint_range; lia|].
  split; [exact Hs|]. intros n.
  pose proof (randint_range 3 6 g ltac:(lia)) as Hk.
  unfold Particle.is_dead.
  destruct (Particle_updates_age n p0) as [-> ->].
  rewrite Particle_updates_size, Hs, Ha, Hl, orb_true_iff, Z.leb_le.
  destruct (Nat.lt_ge_cases n 30) as [Hn|Hn].
  - rewrite (shrunk_table _ n Hk Hn), andb_true_iff, Z.eqb_eq, Z.leb_le. lia.
  - split; [left|intros _; left]; lia.
Qed.

Lemma X7_witness :
  let p0 := fst (Particle.init (R := Demo.counter) 100 200 (255, 0, 0) 4) in
  exists k, 3 <= k <= 6 /\ Particle.size p0 = Py.of_int k /\
    forall n : nat,
      Particle.is_dead (Particle.updates n p0) = true <->
      (30 <= n)%nat \/ (k = 3 /\ (20 <= n)%nat).
Proof.
  exact (X7_particle_dies_at_30_or_20 (HR := Demo_counter_ok)
           100 200 (255, 0, 0) 4).
Defined.

(** ** Drawing an explosion particle *)

Section DrawMonadFacts.
Context {Image : Type}.

Lemma draw_bind_emit {B} (c : Draw.command Image)
    (k : unit -> Draw.t Image B) :
  Draw.bind (Draw.emit c) k = (c :: fst (k tt), snd (k tt)).
Proof. cbn. now destruct (k tt). Qed.

Lemma draw_bind_ok {A B} (a : A) (k : A -> Draw.t Image B) :
  Draw.bind (Draw.lift (Py.Ok a)) k = k a.
Proof. cbn. now destruct (k a). Qed.

Lemma draw_bind_length {A B} (c : Draw.t Image A) (k : A -> Draw.t Image B)
    (N : nat) :
  (forall a, length (fst (k a)) <= N)%nat ->
  (length (fst (Draw.bind c k)) <= length (fst c) + N)%nat.
Proof.
  intros Hk. destruct c as [cs [a|e]]; cbn; [|lia].
  specialize (Hk a). destruct (k a) as [cs' r]. cbn in *.
  rewrite length_app. lia.
Qed.

Lemma draw_lift_length {A} (r : Py.result A) :
  length (fst (Draw.lift (Image := Image) r)) = 0%nat.
Proof. now destruct r. Qed.

Lemma for_each_length {X} (xs : list X) (body : X -> Draw.t Image unit)
    (N : nat) :
  (forall x, length (fst (body x)) <= N)%nat ->
  (length (fst (Draw.for_each xs body)) <= length xs * N)%nat.
Proof.
  intros Hb. induction xs as [|x xs IH]; [cbn; lia|].
  cbn [Draw.for_each length].
  pose proof (draw_bind_length (body x) (fun _ => Draw.for_each xs body)
                (length xs * N) (fun _ => IH)) as Hl.
  specialize (Hb x). lia.
Qed.

End DrawMonadFacts.

(** [float(n)] answers on the small integers the drawing code converts. *)
Lemma to_float_small (n : Z) :
  0 <= n <= 40 -> Draw.to_float n = Py.Ok (Py.of_int n).
Proof.
  intros Hn.
  assert (T : forallb (fun k => negb (is_infinity (Py.of_int (Z.of_nat k))))
                (List.seq 0 41) = true) by (vm_compute; reflexivity).
  rewrite forallb_forall in T.
  specialize (T (Z.to_nat n)). rewrite Z2Nat.id in T by lia.
  unfold Draw.to_float.
  rewrite (proj1 (negb_true_iff _) (T ltac:(apply List.in_seq; lia))).
  reflexivity.
Qed.

(** The fade of a particle with [max_life] in 25..45 and [life] in
    1..[max_life]: the rounded quotient and product lose nothing, the alpha
    is the integer part of [255 * life / max_life]. *)
Lemma alpha_table {Image : Type} (p : ExplosionParticle.t) :
  25 <= ExplosionParticle.max_life p <= 45 ->
  1 <= ExplosionParticle.life p <= ExplosionParticle.max_life p ->
  ExplosionParticle.alpha (Image := Image) p
  = ([], Draw.Done (255 * ExplosionParticle.life p
                    / ExplosionParticle.max_life p)).
Proof.
  intros Hm Hl. unfold ExplosionParticle.alpha.
  set (l := ExplosionParticle.life p) in *.
  set (m := ExplosionParticle.max_life p) in *.
  assert (T : forallb (fun m' =>
                forallb (fun l' =>
                  match Draw.truediv (Z.of_nat l') (Z.of_nat m') with
                  | Draw.Done q =>
                      match Py.int (255 * q) with
                      | Py.Ok a => a =? 255 * Z.of_nat l' / Z.of_nat m'
                      | Py.Raise _ => false
                      end
                  | Draw.Fail _ => false
                  end) (List.seq 1 m')) (List.seq 25 21) = true)
    by (vm_compute; reflexivity).
  rewrite forallb_forall in T.
  specialize (T (Z.to_nat m) ltac:(apply List.in_seq; lia)).
  rewrite forallb_forall in T.
  specialize (T (Z.to_nat l) ltac:(apply List.in_seq; lia)).
  rewrite !Z2Nat.id in T by lia.
  destruct (Draw.truediv l m) as [q|]; [|discriminate]. cbn.
  destruct (Py.int (255 * q)) as [a|]; [|discriminate].
  apply Z.eqb_eq in T. now rewrite T.
Qed.

Lemma EP_updates_size (n : nat) (p : ExplosionParticle.t) :
  ExplosionParticle.size (ExplosionParticle.updates n p)
  = ExplosionParticle.shrunk n (ExplosionParticle.size p).
Proof.
  induction n as [|n IH]; [reflexivity|].
  rewrite EP_updates_S. cbn [ExplosionParticle.update fst ExplosionParticle.size].
  rewrite IH. reflexivity.
Qed.

(** The sizes 4..10 over the 44 frames a particle can live: the radius
    [int(size)] stays between 1 and 10. *)
Lemma EP_radius_table (k : Z) (n : nat) :
  4 <= k <= 10 -> (n <= 44)%nat ->
  exists r, Py.int (ExplosionParticle.shrunk n (Py.of_int k)) = Py.Ok r /\
            1 <= r <= 10.
Proof.
  intros Hk Hn.
  assert (T : forallb (fun k' =>
                forallb (fun n' =>
                  match Py.int (ExplosionParticle.shrunk n'
                                  (Py.of_int (Z.of_nat k'))) with
                  | Py.Ok r => (1 <=? r) && (r <=? 10)
                  | Py.Raise _ => false
                  end) (List.seq 0 45)) (List.seq 4 7) = true)
    by (vm_compute; reflexivity).
  rewrite forallb_forall in T.
  specialize (T (Z.to_nat k) ltac:(apply List.in_seq; lia)).
  rewrite forallb_forall in T.
  specialize (T n ltac:(apply List.in_seq; lia)).
  rewrite Z2Nat.id in T by lia.
  destruct (Py.int _) as [r|]; [|discriminate].
  exists r. split; [reflexivity|]. lia.
Qed.

Section ExplosionParticleDraw.
Context {Image G : Type} {R : Py.Random G} {M : Py.Libm} {HR : Py.RandomOk G}.

(** What [n] updates leave of a constructed particle that is still
    alive. *)
Lemma EP_constructed_state (x y : float) (c : rgb) (g : G) (n : nat) :
  let p0 := fst (ExplosionParticle.init x y c g) in
  let p := ExplosionParticle.updates n p0 in
  Z.of_nat n < ExplosionParticle.life p0 ->
  ExplosionParticle.color p = c /\
  25 <= ExplosionParticle.max_life p <= 45 /\
  ExplosionParticle.max_life p = ExplosionParticle.life p0 /\
  ExplosionParticle.life p = ExplosionParticle.life p0 - Z.of_nat n /\
  ExplosionParticle.glow_size p = ExplosionParticle.glow_size p0 /\
  15 <= ExplosionParticle.glow_size p0 <= 30 /\
  exists r, Py.int (ExplosionParticle.size p) = Py.Ok r /\ 1 <= r <= 10.
Proof.
  intros p0 p Hn.
  destruct (EP_init_ranges x y c g) as (_ & _ & Hc & (k & Hk & Hs) & Hl & Hm & Hg).
  fold p0 in Hc, Hs, Hl, Hm, Hg.
  destruct (EP_updates_frame n p0) as (Ec & Em & Eg & _). fold p in Ec, Em, Eg.
  rewrite Ec, Em, Eg, Hc, Hm. subst p.
  rewrite EP_updates_life, EP_updates_size, Hs.
  repeat split; try lia.
  apply EP_radius_table; lia.
Qed.

(** X8.  For a particle from the constructor that is still alive after
    [n] updates, the fade of [draw] never divides by zero and is exactly
    the integer part of [255 * life / max_life], with [life] the frames left
    and [max_life] the life drawn at construction: binary64 rounding loses
    nothing here.  It lies between 5 and 255. *)
Theorem X8_alpha_is_exact (x y : float) (c : rgb) (g : G) (n : nat) :
  let p0 := fst (ExplosionParticle.init x y c g) in
  let a := 255 * (ExplosionParticle.life p0 - Z.of_nat n)
           / ExplosionParticle.life p0 in
  Z.of_nat n < ExplosionParticle.life p0 ->
  ExplosionParticle.alpha (Image := Image) (ExplosionParticle.updates n p0)
  = ([], Draw.Done a) /\
  5 <= a <= 255.
Proof.
  intros p0 a Hn.
  destruct (EP_constructed_state x y c g n Hn) as (_ & Hm & Em & El & _).
  fold p0 in Hm, Em, El. split.
  - rewrite alpha_table by lia. subst a. now rewrite Em, El.
  - subst a. rewrite Em in Hm. split.
    + apply Z.div_le_lower_bound; lia.
    + apply Z.div_le_upper_bound; lia.
Qed.

Lemma draw_bind_done {A B} (a : A) (k : A -> Draw.t Image B) :
  Draw.bind ([], Draw.Done a) k = k a.
Proof. cbn. now destruct (k a). Qed.

Lemma glow_layer_run (p : ExplosionParticle.t) (a i g' l t : Z) :
  ExplosionParticle.glow_size p - i * 5 = g' ->
  0 < g' <= 40 -> 0 <= a -> 0 <= i ->
  Py.int (ExplosionParticle.x p - Py.of_int g') = Py.Ok l ->
  Py.int (ExplosionParticle.y p - Py.of_int g') = Py.Ok t ->
  ExplosionParticle.glow_layer (Image := Image) p a i
  = Draw.emit (Draw.Blit
                 (Draw.GlowDisc (g' * 2, g' * 2) (ExplosionParticle.color p)
                    (a / (i + 2)) (g', g') g')
                 (l, t)).
Proof.
  intros Eg Hg Ha Hi El Et. unfold ExplosionParticle.glow_layer. rewrite Eg.
  rewrite (proj2 (Z.ltb_lt 0 g')) by lia.
  rewrite to_float_small by lia.
  rewrite draw_bind_ok, El, draw_bind_ok, Et, draw_bind_ok.
  rewrite Z.max_r; [reflexivity|].
  apply Z.div_pos; lia.
Qed.

(** X9.  A particle from the constructor that is still alive after [n]
    updates, and whose positions convert to integers, is drawn by exactly
    four screen calls and no exception: three glow discs of its colour with
    radii [glow_size], [glow_size - 5], [glow_size - 10] (all positive, no
    layer is skipped) and alphas [alpha // 2], [alpha // 3], [alpha // 4],
    each blitted with its top-left corner at its radius left of and above
    the particle, and then, on top, the core circle of radius [int(size)],
    between 1 and 10. *)
Theorem X9_three_glows_then_core (x y : float) (c : rgb) (g : G) (n : nat) :
  let p0 := fst (ExplosionParticle.init x y c g) in
  let p := ExplosionParticle.updates n p0 in
  let gs := ExplosionParticle.glow_size p0 in
  let a := 255 * (ExplosionParticle.life p0 - Z.of_nat n)
           / ExplosionParticle.life p0 in
  Z.of_nat n < ExplosionParticle.life p0 ->
  forall l0 t0 l1 t1 l2 t2 cx cy : Z,
    Py.int (ExplosionParticle.x p - Py.of_int gs) = Py.Ok l0 ->
    Py.int (ExplosionParticle.y p - Py.of_int gs) = Py.Ok t0 ->
    Py.int (ExplosionParticle.x p - Py.of_int (gs - 5)) = Py.Ok l1 ->
    Py.int (ExplosionParticle.y p - Py.of_int (gs - 5)) = Py.Ok t1 ->
    Py.int (ExplosionParticle.x p - Py.of_int (gs - 10)) = Py.Ok l2 ->
    Py.int (ExplosionParticle.y p - Py.of_int (gs - 10)) = Py.Ok t2 ->
    Py.int (ExplosionParticle.x p) = Py.Ok cx ->
    Py.int (ExplosionParticle.y p) = Py.Ok cy ->
    5 <= gs - 10 /\
    exists r, 1 <= r <= 10 /\
      Py.int (ExplosionParticle.size p) = Py.Ok r /\
      ExplosionParticle.draw (Image := Image) p
      = ([Draw.Blit (Draw.GlowDisc (gs * 2, gs * 2) c (a / 2) (gs, gs) gs)
            (l0, t0);
          Draw.Blit (Draw.GlowDisc ((gs - 5) * 2, (gs - 5) * 2) c (a / 3)
                       (gs - 5, gs - 5) (gs - 5))
            (l1, t1);
          Draw.Blit (Draw.GlowDisc ((gs - 10) * 2, (gs - 10) * 2) c (a / 4)
                       (gs - 10, gs - 10) (gs - 10))
            (l2, t2);
          Draw.Circle c (cx, cy) r],
         Draw.Done tt).
Proof.
  intros p0 p gs a Hn l0 t0 l1 t1 l2 t2 cx cy E0x E0y E1x E1y E2x E2y Ex Ey.
  destruct (EP_constructed_state x y c g n Hn)
    as (Hc & Hm & Em & El & Eg & Hg & r & Er & Hr).
  fold p0 in Hc, Hm, Em, El, Eg, Hg, Er. fold p in Hc, Hm, Em, El, Eg, Er.
  fold gs in Eg, Hg.
  split; [lia|]. exists r. split; [exact Hr|]. split; [exact Er|].
  assert (Ha : 0 <= a).
  { subst a. apply Z.div_pos; lia. }
  unfold ExplosionParticle.draw.
  rewrite (proj2 (Z.ltb_lt 0 (ExplosionParticle.life p))) by lia.
  rewrite alpha_table by lia. rewrite draw_bind_done, Em, El. fold a.
  cbn [Draw.for_each].
  rewrite (glow_layer_run p a 0 gs l0 t0) by (auto; lia).
  rewrite (glow_layer_run p a 1 (gs - 5) l1 t1) by (auto; lia).
  rewrite (glow_layer_run p a 2 (gs - 10) l2 t2) by (auto; lia).
  rewrite Ex, Ey, Er, Hc. reflexivity.
Qed.

End ExplosionParticleDraw.

Lemma X8_witness :
  let p0 := fst (ExplosionParticle.init (R := Demo.counter) (M := Demo.libm)
                   320 240 (255, 200, 50) 11) in
  let a := 255 * (ExplosionParticle.life p0 - 3) / ExplosionParticle.life p0 in
  3 < ExplosionParticle.life p0 /\
  ExplosionParticle.alpha (Image := unit) (ExplosionParticle.updates 3 p0)
  = ([], Draw.Done a) /\
  5 <= a <= 255.
Proof.
  cbn zeta. split; [reflexivity|].
  apply (X8_alpha_is_exact (HR := Demo_counter_ok) 320 240 (255, 200, 50) 11 3).
  reflexivity.
Defined.

Lemma X9_witness :
  let p0 := fst (ExplosionParticle.init (R := Demo.counter) (M := Demo.libm)
                   320 240 (255, 200, 50) 11) in
  let p := ExplosionParticle.updates 3 p0 in
  exists cmds,
    length cmds = 4%nat /\
    ExplosionParticle.draw (Image := unit) p = (cmds, Draw.Done tt).
Proof.
  cbn zeta.
  edestruct (X9_three_glows_then_core (Image := unit) (R := Demo.counter)
               (M := Demo.libm) (HR := Demo_counter_ok)
               320 240 (255, 200, 50) 11 3) as (_ & r & _ & _ & E);
    [reflexivity|vm_compute; reflexivity..|].
  eexists. split; [|exact E]. reflexivity.
Defined.

(** ** How much a draw call draws *)

Section DrawBounds.
Context {Image : Type}.

Lemma draw_lift_bind_length {A B} (r : Py.result A)
    (k : A -> Draw.t Image B) (N : nat) :
  (forall a, length (fst (k a)) <= N)%nat ->
  (length (fst (Draw.bind (Draw.lift r) k)) <= N)%nat.
Proof.
  intros Hk. pose proof (draw_bind_length (Draw.lift r) k N Hk) as Hl.
  rewrite draw_lift_length in Hl. exact Hl.
Qed.

Lemma alpha_length (p : ExplosionParticle.t) :
  length (fst (ExplosionParticle.alpha (Image := Image) p)) = 0%nat.
Proof.
  unfold ExplosionParticle.alpha.
  destruct (Draw.truediv _ _) as [q|e]; cbn; [|reflexivity].
  now destruct (Py.int _).
Qed.

Lemma glow_layer_length (p : ExplosionParticle.t) (a i : Z) :
  (length (fst (ExplosionParticle.glow_layer (Image := Image) p a i)) <= 1)%nat.
Proof.
  unfold ExplosionParticle.glow_layer. destruct (0 <? _); [|cbn; lia].
  repeat (apply draw_lift_bind_length; intros ?). cbn. lia.
Qed.

Lemma EP_draw_length (p : ExplosionParticle.t) :
  (length (fst (ExplosionParticle.draw (Image := Image) p)) <= 4)%nat.
Proof.
  unfold ExplosionParticle.draw. destruct (0 <? _); [|cbn; lia].
  eapply Nat.le_trans; [apply (draw_bind_length _ _ 4)|rewrite alpha_length; lia].
  intros a.
  eapply Nat.le_trans; [apply (draw_bind_length _ _ 1)|].
  - intros _. repeat (apply draw_lift_bind_length; intros ?). cbn. lia.
  - pose proof (for_each_length [0; 1; 2]
                  (ExplosionParticle.glow_layer (Image := Image) p a) 1
                  (glow_layer_length p a)) as Hl.
    cbn [length] in Hl. lia.
Qed.

Lemma draw_all_length {G : Type} (ps : list loc) (w : world G) :
  (length (fst (draw_all (Image := Image) ps w)) <= length ps * 4)%nat.
Proof.
  apply for_each_length. intros l.
  destruct (heap w !! l); [apply EP_draw_length|cbn; lia].
Qed.

(** X10.  [ExplosionManager.draw] makes at most four screen calls for each
    particle in the list, whatever the particles are and whether or not the
    call ends in an exception. *)
Theorem X10_manager_draws_at_most_four_each {G : Type}
    (self : ExplosionManager.t) (w : world G) :
  (length (fst (ExplosionManager.draw (Image := Image) self w))
   <= 4 * length (ExplosionManager.particles self))%nat.
Proof.
  unfold ExplosionManager.draw.
  pose proof (draw_all_length (ExplosionManager.particles self) w). lia.
Qed.

End DrawBounds.

(** ** A fireball in flight *)

Section FireballFlight.
Context {Image G : Type} {R : Py.Random G} {M : Py.Libm}.
Implicit Types (self : @Fireball.t Image) (w : world G).

Lemma Fireball_update_frame self w :
  let self' := fst (Fireball.update self w) in
  Fireball.vx self' = Fireball.vx self /\
  Fireball.vy self' = Fireball.vy self /\
  Fireball.target_x self' = Fireball.target_x self /\
  Fireball.target_y self' = Fireball.target_y self /\
  Fireball.speed self' = Fireball.speed self /\
  Fireball.radius self' = Fireball.radius self /\
  Fireball.fireball_image self' = Fireball.fireball_image self.
Proof.
  unfold Fireball.update. rewrite !bind_run. cbn. repeat split.
Qed.

Lemma position_after_S (n : nat) self w :
  Fireball.position_after n (fst (Fireball.update self w))
  = Fireball.position_after (S n) self.
Proof.
  destruct (Fireball_update_fields self w) as (Ex & Ey & _).
  destruct (Fireball_update_frame self w) as (Evx & Evy & _).
  cbn zeta in *. unfold Fireball.position_after.
  rewrite Ex, Ey, Evx, Evy, !Nat.iter_succ_r. reflexivity.
Qed.

Lemma position_after_1 self :
  Fireball.position_after 1 self
  = ((Fireball.x self + Fireball.vx self)%float,
     (Fireball.y self + Fireball.vy self)%float).
Proof. reflexivity. Qed.

Lemma Fireball_flight (n : nat) : forall self w,
  let self' := fst (Fireball.updates n self w) in
  (Fireball.x self', Fireball.y self') = Fireball.position_after n self /\
  Fireball.vx self' = Fireball.vx self /\
  Fireball.vy self' = Fireball.vy self /\
  Fireball.radius self' = Fireball.radius self /\
  Fireball.fireball_image self' = Fireball.fireball_image self /\
  (Fireball.active self' = true <->
   Fireball.active self = true /\
   forall k : nat, (1 <= k <= n)%nat ->
     Fireball.off_screen (fst (Fireball.position_after k self))
                         (snd (Fireball.position_after k self)) = false).
Proof.
  induction n as [|n IH]; intros self w; cbn zeta.
  - cbn [Fireball.updates Py.ret fst]. repeat split; try tauto.
    intros k Hk. lia.
  - rewrite Fireball_updates_S.
    destruct (IH (fst (Fireball.update self w)) (snd (Fireball.update self w)))
      as (Ep & Evx & Evy & Er & Ei & Ea).
    destruct (Fireball_update_frame self w) as (Fvx & Fvy & _ & _ & _ & Fr & Fi).
    destruct (Fireball_update_fields self w) as (Fx & Fy & Fa).
    cbn zeta in *.
    assert (Eoff : Fireball.off_screen
                     (Fireball.x (fst (Fireball.update self w)))
                     (Fireball.y (fst (Fireball.update self w)))
                   = Fireball.off_screen
                       (fst (Fireball.position_after 1 self))
                       (snd (Fireball.position_after 1 self))).
    { rewrite position_after_1, Fx, Fy. reflexivity. }
    rewrite Eoff in Fa.
    split; [now rewrite Ep, position_after_S|].
    split; [now rewrite Evx|]. split; [now rewrite Evy|].
    split; [now rewrite Er|]. split; [now rewrite Ei|].
    rewrite Ea, Fa. split.
    + intros [Hact Hk].
      destruct (Fireball.off_screen _ _) eqn:Hoff; [discriminate|].
      split; [exact Hact|]. intros k Hk1.
      destruct k as [|[|k]]; [lia|exact Hoff|].
      rewrite <- (position_after_S (S k) self w). apply Hk. lia.
    + intros [Hact Hk]. split.
      * rewrite (Hk 1%nat) by lia. exact Hact.
      * intros k Hk1. rewrite position_after_S. apply Hk. lia.
Qed.

(** X11.  A fireball does not home: through any number of updates its
    velocity stays what the constructor computed, and after [n] updates it
    is where [n] additions of that velocity take it.  It is still active
    exactly when it was active before and none of the [n] positions it went
    through was off screen: once it leaves the field it is never
    reactivated, and nothing else deactivates it. *)
Theorem X11_straight_flight (n : nat) self w :
  let self' := fst (Fireball.updates n self w) in
  (Fireball.x self', Fireball.y self') = Fireball.position_after n self /\
  Fireball.vx self' = Fireball.vx self /\
  Fireball.vy self' = Fireball.vy self /\
  (Fireball.active self' = true <->
   Fireball.active self = true /\
   forall k : nat, (1 <= k <= n)%nat ->
     Fireball.off_screen (fst (Fireball.position_after k self))
                         (snd (Fireball.position_after k self)) = false).
Proof.
  destruct (Fireball_flight n self w) as (Ep & Evx & Evy & _ & _ & Ea).
  cbn zeta in *. auto.
Qed.

End FireballFlight.

(** ** The trail of a fireball *)

Section TrailFacts.
Context {G : Type}.
Implicit Types (w : world G) (l : loc) (ps : list loc).

Lemma stacked_same (B : Z) w w' ps :
  (forall l, l ∈ ps -> heap w' !! l = heap w !! l) ->
  stacked B w ps -> stacked B w' ps.
Proof.
  induction ps as [|a ps IH]; intros Hs; [auto|].
  cbn [stacked]. intros (Ha & Hl & Hr).
  assert (Ea : heap w' !! a = heap w !! a) by (apply Hs, elem_of_cons; now left).
  rewrite (life_at_same w w' a Ea), Ea. repeat split; auto.
  apply IH; auto. intros l Hl'. apply Hs, elem_of_cons. now right.
Qed.

Lemma stacked_weaken (B B' : Z) w ps :
  B <= B' -> stacked B w ps -> stacked B' w ps.
Proof.
  intros HB. induction ps as [|a ps IH]; [auto|].
  cbn [stacked]. intros (Ha & Hl & Hr). repeat split; auto. lia.
Qed.

Lemma stacked_snoc (B : Z) w ps l p :
  stacked B w ps -> heap w !! l = Some p -> ExplosionParticle.life p <= B + 1 ->
  stacked (B + 1) w (ps ++ [l]).
Proof.
  intros Hs Hp Hl. induction ps as [|a ps IH].
  - cbn. unfold life_at. rewrite Hp. repeat split; [now eexists|lia].
  - cbn [stacked app] in *. destruct Hs as (Ha & Hla & Hr).
    repeat split; auto. rewrite length_app. cbn [length]. lia.
Qed.

Lemma stacked_life (B : Z) w ps l :
  stacked B w ps -> l ∈ ps -> is_Some (heap w !! l) /\ life_at w l <= B.
Proof.
  induction ps as [|a ps IH]; intros Hs Hl; [now apply elem_of_nil in Hl|].
  cbn [stacked] in Hs. destruct Hs as (Ha & Hla & Hr).
  apply elem_of_cons in Hl as [->|Hl]; [split; [auto|lia]|now apply IH].
Qed.

Lemma stacked_length (B : Z) w ps :
  0 <= B -> stacked B w ps -> (forall l, l ∈ ps -> 0 < life_at w l) ->
  Z.of_nat (length ps) <= B.
Proof.
  intros HB Hs Hpos. destruct ps as [|a ps]; [cbn; lia|].
  cbn [stacked] in Hs. destruct Hs as (_ & Hla & _).
  specialize (Hpos a ltac:(apply elem_of_cons; now left)).
  cbn [length]. lia.
Qed.

(** One pass of the list comprehension ages a stacked list by a frame. *)
Lemma stacked_after_update (B : Z) w w' ps :
  stacked (B + 1) w ps ->
  (forall l, l ∈ ps ->
     heap w' !! l = (fun p => fst (ExplosionParticle.update p)) <$> heap w !! l) ->
  stacked B w' (List.filter (fun l => 1 <? life_at w l) ps) /\
  forall l, In l (List.filter (fun l => 1 <? life_at w l) ps) ->
            0 < life_at w' l.
Proof.
  induction ps as [|a ps IH]; intros Hs Hup; [cbn; split; [auto|tauto]|].
  cbn [stacked] in Hs. destruct Hs as ([p Hp] & Hla & Hr).
  destruct IH as [IHs IHp]; [exact Hr| |].
  { intros l Hl. apply Hup, elem_of_cons. now right. }
  assert (Ea : life_at w' a = life_at w a - 1).
  { unfold life_at. rewrite (Hup a ltac:(apply elem_of_cons; now left)), Hp.
    reflexivity. }
  cbn [List.filter]. destruct (Z.ltb_spec 1 (life_at w a)) as [Hlt|Hge].
  - split.
    + cbn [stacked]. repeat split; auto.
      * rewrite (Hup a ltac:(apply elem_of_cons; now left)), Hp. now eexists.
      * pose proof (filter_length_le (fun l => 1 <? life_at w l) ps). lia.
    + intros l [<-|Hl]; [lia|now apply IHp].
  - split; auto.
Qed.

End TrailFacts.

Section FireballTrail.
Context {Image G : Type} {R : Py.Random G} {M : Py.Libm}.
Context (load : option Image).
Implicit Types (self : @Fireball.t Image) (w : world G).

Lemma Fireball_init_fields (x y tx ty : float) (img : option Image) self :
  Fireball.init load x y tx ty img = Py.Ok self ->
  Fireball.x self = x /\ Fireball.y self = y /\
  Fireball.speed self = 12 /\ Fireball.radius self = 15 /\
  Fireball.active self = true /\ Fireball.trail_particles self = [] /\
  Fireball.fireball_image self
  = match img with Some i => Some i | None => load end.
Proof.
  unfold Fireball.init.
  destruct (Py.pow2 (tx - x)) as [dx2|]; [|discriminate]. cbn [Py.rbind].
  destruct (Py.pow2 (ty - y)) as [dy2|]; [|discriminate]. cbn [Py.rbind].
  destruct (Py.math_sqrt (dx2 + dy2)) as [d|]; [|discriminate]. cbn [Py.rbind].
  intros [= <-]. cbn. repeat split.
Qed.

(** What [update] does to the trail: perhaps one new particle at the end,
    then the list comprehension. *)
Lemma Fireball_update_trail self w :
  exists trail w1,
    Fireball.trail_particles (fst (Fireball.update self w))
    = fst (update_and_keep trail w1) /\
    snd (Fireball.update self w) = snd (update_and_keep trail w1) /\
    ((trail = Fireball.trail_particles self /\ heap w1 = heap w) \/
     (exists c g,
        trail = Fireball.trail_particles self ++ [length (heap w)] /\
        heap w1
        = heap w ++ [fst (ExplosionParticle.init
                            (Fireball.x self + Fireball.vx self)
                            (Fireball.y self + Fireball.vy self) c g)])).
Proof.
  unfold Fireball.update. rewrite bind_run, with_gen_run. cbn [fst snd].
  destruct (fst (Py.random (gen w)) <? 0.3)%float.
  - rewrite !bind_run, !with_gen_run. cbn [fst snd alloc heap gen Py.ret].
    eexists _, _. split; [reflexivity|]. split; [reflexivity|].
    right. eexists _, _. cbn [heap]. split; reflexivity.
  - rewrite !bind_run. cbn [fst snd Py.ret].
    eexists _, _. split; [reflexivity|]. split; [reflexivity|].
    left. cbn [heap]. split; reflexivity.
Qed.

Context {HR : Py.RandomOk G}.

(** The trail of a fireball is a stacked list of distinct live particles. *)
Lemma Fireball_reachable_trail s :
  Fireball.reachable load s ->
  NoDup (Fireball.trail_particles (fst s)) /\
  stacked 44 (snd s) (Fireball.trail_particles (fst s)) /\
  forall l, l ∈ Fireball.trail_particles (fst s) -> 0 < life_at (snd s) l.
Proof.
  induction 1 as [x y tx ty img self w Hi|self w Hr (Hnd & Hst & Hpos)
                 |self w w' Hr (Hnd & Hst & Hpos) Hsame]; cbn [fst snd] in *.
  - destruct (Fireball_init_fields _ _ _ _ _ _ Hi) as (_ & _ & _ & _ & _ & -> & _).
    repeat split; [apply NoDup_nil_2|]. intros l Hl. now apply elem_of_nil in Hl.
  - destruct (Fireball_update_trail self w)
      as (trail & w1 & -> & -> & Hcase).
    assert (Hpre : NoDup trail /\ stacked 45 w1 trail).
    { destruct Hcase as [[-> Eh]|(c & g & -> & Eh)].
      - split; [exact Hnd|]. apply (stacked_weaken 44); [lia|].
        apply (stacked_same 44 w); [now rewrite Eh|exact Hst].
      - assert (Hold : forall l, l ∈ Fireball.trail_particles self ->
                         (l < length (heap w))%nat).
        { intros l Hl. apply lookup_lt_is_Some.
          apply (stacked_life 44 w _ l Hst Hl). }
        split.
        + apply NoDup_app. split; [exact Hnd|]. split; [|apply NoDup_singleton].
          intros l Hl Hnew. apply list_elem_of_singleton in Hnew.
          specialize (Hold l Hl). lia.
        + apply (stacked_snoc 44 w1 _ _
                   (fst (ExplosionParticle.init
                           (Fireball.x self + Fireball.vx self)
                           (Fireball.y self + Fireball.vy self) c g))).
          * apply (stacked_same 44 w); [|exact Hst].
            intros l Hl. rewrite Eh. apply lookup_app_l, Hold, Hl.
          * rewrite Eh, lookup_app_r by lia. now rewrite Nat.sub_diag.
          * pose proof (EP_init_ranges
                          (Fireball.x self + Fireball.vx self)
                          (Fireball.y self + Fireball.vy self) c g)
              as (_ & _ & _ & _ & Hl & _). lia. }
    destruct Hpre as [Hnd1 Hst1].
    assert (Hal1 : forall l, l ∈ trail -> is_Some (heap w1 !! l)).
    { intros l Hl. apply (stacked_life 45 w1 _ l Hst1 Hl). }
    destruct (update_and_keep_exact _ w1 Hnd1 Hal1) as (Kf & _ & _ & Kin & _).
    destruct (stacked_after_update 44 w1 (snd (update_and_keep trail w1)) trail
                Hst1 Kin) as [Hs' Hp'].
    rewrite Kf. repeat split; auto.
    + apply NoDup_ListNoDup, List.NoDup_filter. now apply NoDup_ListNoDup.
    + intros l Hl. apply Hp'. now apply list_elem_of_In.
  - repeat split; [exact Hnd|now apply (stacked_same 44 w)|].
    intros l Hl. rewrite (life_at_same w w' l); [now apply Hpos|now apply Hsame].
Qed.

(** X12.  In every state a fireball goes through, its trail holds
    distinct particles, each with between 1 and 44 frames left to live, and
    never more than 44 of them: at most one particle is added a frame, and
    none outlives 44 frames in the trail. *)
Theorem X12_trail_is_bounded self w :
  Fireball.reachable load (self, w) ->
  NoDup (Fireball.trail_particles self) /\
  (forall l, l ∈ Fireball.trail_particles self ->
     exists p, heap w !! l = Some p /\ 0 < ExplosionParticle.life p <= 44) /\
  (length (Fireball.trail_particles self) <= 44)%nat.
Proof.
  intros Hr.
  destruct (Fireball_reachable_trail _ Hr) as (Hnd & Hst & Hpos).
  cbn [fst snd] in *. split; [exact Hnd|]. split.
  - intros l Hl. destruct (stacked_life 44 w _ l Hst Hl) as [[p Hp] Hle].
    specialize (Hpos l Hl). unfold life_at in *. rewrite Hp in *.
    exists p. split; [reflexivity|lia].
  - pose proof (stacked_length 44 w _ ltac:(lia) Hst Hpos). lia.
Qed.

End FireballTrail.

(** ** Drawing a fireball *)

Section FireballDraw.
Context {Image G : Type} {R : Py.Random G} {M : Py.Libm}.
Context (load : option Image).
Implicit Types (self : @Fireball.t Image) (w : world G).

Lemma Fireball_reachable_radius s :
  Fireball.reachable load s ->
  Fireball.radius (fst s) = 15 /\ Fireball.speed (fst s) = 12.
Proof.
  induction 1 as [x y tx ty img self w Hi|self w Hr [IHr IHs]|self w w' Hr IH Hs];
    cbn [fst snd] in *.
  - destruct (Fireball_init_fields load _ _ _ _ _ _ Hi) as (_ & _ & Hs & Hr & _).
    now split.
  - destruct (Fireball_update_frame self w) as (_ & _ & _ & _ & -> & -> & _).
    now split.
  - exact IH.
Qed.

Lemma glow_ring_length self (i : Z) :
  (length (fst (Fireball.glow_ring self i)) <= 1)%nat.
Proof.
  unfold Fireball.glow_ring.
  repeat (apply draw_lift_bind_length; intros ?). cbn. lia.
Qed.

Lemma draw_body_length self :
  (length (fst (Fireball.draw_body self)) <= 5)%nat.
Proof.
  unfold Fireball.draw_body. destruct (Fireball.fireball_image self).
  - repeat (apply draw_lift_bind_length; intros ?). cbn. lia.
  - eapply Nat.le_trans; [apply (draw_bind_length _ _ 2)|].
    + intros _. repeat (apply draw_lift_bind_length; intros ?).
      rewrite draw_bind_emit. cbn [fst length].
      apply le_n_S.
      repeat (apply draw_lift_bind_length; intros ?). cbn. lia.
    + pose proof (for_each_length [0; 1; 2] (Fireball.glow_ring self) 1
                    (glow_ring_length self)) as Hl.
      cbn [length] in Hl. lia.
Qed.

(** X13.  For a fireball in any state it goes through, [get_rect] is the
    square of side 30 whose top-left corner is 15 left of and above the
    position, and a fireball with a sprite draws itself by one blit of the
    sprite at that corner, truncated to integers: the picture covers the
    hit box, although [draw] hard-codes 15 where [get_rect] reads
    [radius]. *)
Theorem X13_sprite_covers_hit_box self w :
  Fireball.reachable load (self, w) ->
  Fireball.get_rect self
  = Py.Ok ((Fireball.x self - 15)%float, (Fireball.y self - 15)%float, 30, 30) /\
  forall (img : Image) (left top : Z),
    Fireball.fireball_image self = Some img ->
    Py.int (Fireball.x self - 15) = Py.Ok left ->
    Py.int (Fireball.y self - 15) = Py.Ok top ->
    Fireball.draw_body self
    = ([Draw.Blit (Draw.Sprite img) (left, top)], Draw.Done tt).
Proof.
  intros Hr. destruct (Fireball_reachable_radius _ Hr) as [Er _].
  cbn [fst] in Er. split.
  - unfold Fireball.get_rect. rewrite Er. reflexivity.
  - intros img left top Ei El Et. unfold Fireball.draw_body.
    rewrite Ei, El, draw_bind_ok, Et, draw_bind_ok. reflexivity.
Qed.

Lemma glow_ring_run self (i g' l t : Z) :
  Fireball.radius self + (10 - i * 3) = g' -> 0 <= g' <= 40 ->
  Py.int (Fireball.x self - Py.of_int g') = Py.Ok l ->
  Py.int (Fireball.y self - Py.of_int g') = Py.Ok t ->
  Fireball.glow_ring self i
  = Draw.emit (Draw.Blit
                 (Draw.GlowDisc (g' * 2, g' * 2) (255, 150, 0) (100 - i * 30)
                    (g', g') g')
                 (l, t)).
Proof.
  intros Eg Hg El Et. unfold Fireball.glow_ring. rewrite Eg.
  rewrite to_float_small by lia.
  now rewrite draw_bind_ok, El, draw_bind_ok, Et, draw_bind_ok.
Qed.

(** X14.  A fireball without a sprite, in any state it goes through and
    with positions that convert to integers, draws itself by exactly five
    screen calls: three orange glow discs of radii 25, 22 and 19 and alphas
    100, 70 and 40, each blitted at its radius left of and above the
    position, then a disc of radius 15 and on top one of radius 10, both
    centred on the position. *)
Theorem X14_fallback_drawing self w :
  Fireball.reachable load (self, w) ->
  Fireball.fireball_image self = None ->
  forall l0 t0 l1 t1 l2 t2 cx cy : Z,
    Py.int (Fireball.x self - 25) = Py.Ok l0 ->
    Py.int (Fireball.y self - 25) = Py.Ok t0 ->
    Py.int (Fireball.x self - 22) = Py.Ok l1 ->
    Py.int (Fireball.y self - 22) = Py.Ok t1 ->
    Py.int (Fireball.x self - 19) = Py.Ok l2 ->
    Py.int (Fireball.y self - 19) = Py.Ok t2 ->
    Py.int (Fireball.x self) = Py.Ok cx ->
    Py.int (Fireball.y self) = Py.Ok cy ->
    Fireball.draw_body self
    = ([Draw.Blit (Draw.GlowDisc (50, 50) (255, 150, 0) 100 (25, 25) 25) (l0, t0);
        Draw.Blit (Draw.GlowDisc (44, 44) (255, 150, 0) 70 (22, 22) 22) (l1, t1);
        Draw.Blit (Draw.GlowDisc (38, 38) (255, 150, 0) 40 (19, 19) 19) (l2, t2);
        Draw.Circle (255, 200, 50) (cx, cy) 15;
        Draw.Circle (255, 255, 200) (cx, cy) 10],
       Draw.Done tt).
Proof.
  intros Hr Ei l0 t0 l1 t1 l2 t2 cx cy E0x E0y E1x E1y E2x E2y Ex Ey.
  destruct (Fireball_reachable_radius _ Hr) as [Er _]. cbn [fst] in Er.
  unfold Fireball.draw_body. rewrite Ei. cbn [Draw.for_each].
  rewrite (glow_ring_run self 0 25 l0 t0) by (auto; lia).
  rewrite (glow_ring_run self 1 22 l1 t1) by (auto; lia).
  rewrite (glow_ring_run self 2 19 l2 t2) by (auto; lia).
  rewrite Ex, Ey, Er. reflexivity.
Qed.

Context {HR : Py.RandomOk G}.

(** X15.  [Fireball.draw] draws the trail first and the fireball after
    it, and in any state a fireball goes through it makes at most 181
    screen calls: four for each of at most 44 trail particles and five for
    the fireball. *)
Theorem X15_fireball_draw_is_bounded self w :
  Fireball.reachable load (self, w) ->
  (snd (draw_all (Image := Image) (Fireball.trail_particles self) w)
   = Draw.Done tt ->
   fst (Fireball.draw self w)
   = fst (draw_all (Fireball.trail_particles self) w)
     ++ fst (Fireball.draw_body self)) /\
  (length (fst (Fireball.draw self w)) <= 181)%nat.
Proof.
  intros Hr. split.
  - unfold Fireball.draw.
    destruct (draw_all _ w) as [cs [[]|e]]; cbn; [|discriminate].
    intros _. now destruct (Fireball.draw_body self).
  - destruct (Fireball_reachable_trail load _ Hr) as (_ & Hst & Hpos).
    cbn [fst snd] in *.
    pose proof (stacked_length 44 w _ ltac:(lia) Hst Hpos) as Hlen.
    unfold Fireball.draw.
    pose proof (draw_bind_length
                  (draw_all (Image := Image) (Fireball.trail_particles self) w)
                  (fun _ => Fireball.draw_body self) 5
                  (fun _ => draw_body_length self)) as Hb.
    pose proof (draw_all_length (Image := Image)
                  (Fireball.trail_particles self) w) as Ht.
    lia.
Qed.

Lemma Fireball_reachable_updates (n : nat) : forall self w,
  Fireball.reachable load (self, w) ->
  Fireball.reachable load (Fireball.updates n self w).
Proof.
  induction n as [|n IH]; intros self w Hr; [exact Hr|].
  rewrite Fireball_updates_S. apply IH.
  rewrite <- surjective_pairing. now apply Fireball.reach_update.
Qed.

End FireballDraw.

(** A fireball shot straight up from (300, 700), with the demo generator,
    ten frames on. *)
Lemma X12_witness :
  let fb := Fireball.mk (Image := unit) 300 700 300 100 12 true [] None 0 (-12) 15 in
  let s := Fireball.updates (R := Demo.counter) (M := Demo.libm)
             10 fb (Demo.empty 0) in
  Fireball.reachable (R := Demo.counter) (M := Demo.libm) None s /\
  NoDup (Fireball.trail_particles (fst s)) /\
  (forall l, l ∈ Fireball.trail_particles (fst s) ->
     exists p, heap (snd s) !! l = Some p /\ 0 < ExplosionParticle.life p <= 44) /\
  (length (Fireball.trail_particles (fst s)) <= 44)%nat.
Proof.
  cbn zeta.
  assert (Hr : Fireball.reachable (R := Demo.counter) (M := Demo.libm) None
                 (Fireball.updates (R := Demo.counter) (M := Demo.libm) 10
                    (Fireball.mk (Image := unit) 300 700 300 100 12 true []
                       None 0 (-12) 15)
                    (Demo.empty 0))).
  { apply Fireball_reachable_updates.
    apply (Fireball.reach_init None 300 700 300 100 None). reflexivity. }
  split; [exact Hr|].
  apply (X12_trail_is_bounded (R := Demo.counter) (M := Demo.libm)
           (HR := Demo_counter_ok) None).
  rewrite <- surjective_pairing. exact Hr.
Defined.

Lemma X13_witness :
  let fb := Fireball.mk (Image := unit) 300 700 300 100 12 true [] (Some tt)
              0 (-12) 15 in
  let s := Fireball.updates (R := Demo.counter) (M := Demo.libm)
             3 fb (Demo.empty 0) in
  Fireball.get_rect (fst s) = Py.Ok (285%float, 649%float, 30, 30) /\
  Fireball.draw_body (fst s)
  = ([Draw.Blit (Draw.Sprite tt) (285, 649)], Draw.Done tt).
Proof.
  cbn zeta.
  assert (Hr : Fireball.reachable (R := Demo.counter) (M := Demo.libm) None
                 (Fireball.updates (R := Demo.counter) (M := Demo.libm) 3
                    (Fireball.mk (Image := unit) 300 700 300 100 12 true []
                       (Some tt) 0 (-12) 15)
                    (Demo.empty 0))).
  { apply Fireball_reachable_updates.
    apply (Fireball.reach_init None 300 700 300 100 (Some tt)). reflexivity. }
  rewrite (surjective_pairing (Fireball.updates _ _ _)) in Hr.
  destruct (X13_sprite_covers_hit_box (R := Demo.counter) (M := Demo.libm)
              None _ _ Hr) as [Erect Edraw].
  split.
  - rewrite Erect. reflexivity.
  - apply Edraw; reflexivity.
Defined.

Lemma X14_witness :
  let fb := Fireball.mk (Image := unit) 300 700 300 100 12 true [] None
              0 (-12) 15 in
  let s := Fireball.updates (R := Demo.counter) (M := Demo.libm)
             3 fb (Demo.empty 0) in
  Fireball.draw_body (fst s)
  = ([Draw.Blit (Draw.GlowDisc (50, 50) (255, 150, 0) 100 (25, 25) 25) (275, 639);
      Draw.Blit (Draw.GlowDisc (44, 44) (255, 150, 0) 70 (22, 22) 22) (278, 642);
      Draw.Blit (Draw.GlowDisc (38, 38) (255, 150, 0) 40 (19, 19) 19) (281, 645);
      Draw.Circle (255, 200, 50) (300, 664) 15;
      Draw.Circle (255, 255, 200) (300, 664) 10],
     Draw.Done tt).
Proof.
  cbn zeta.
  assert (Hr : Fireball.reachable (R := Demo.counter) (M := Demo.libm) None
                 (Fireball.updates (R := Demo.counter) (M := Demo.libm) 3
                    (Fireball.mk (Image := unit) 300 700 300 100 12 true []
                       None 0 (-12) 15)
                    (Demo.empty 0))).
  { apply Fireball_reachable_updates.
    apply (Fireball.reach_init None 300 700 300 100 None). reflexivity. }
  rewrite (surjective_pairing (Fireball.updates _ _ _)) in Hr.
  apply (X14_fallback_drawing (R := Demo.counter) (M := Demo.libm)
           None _ _ Hr); reflexivity.
Defined.

Lemma X15_witness :
  let fb := Fireball.mk (Image := unit) 300 700 300 100 12 true [] None
              0 (-12) 15 in
  let s := Fireball.updates (R := Demo.counter) (M := Demo.libm)
             10 fb (Demo.empty 0) in
  (length (fst (Fireball.draw (fst s) (snd s))) <= 181)%nat.
Proof.
  cbn zeta.
  assert (Hr : Fireball.reachable (R := Demo.counter) (M := Demo.libm) None
                 (Fireball.updates (R := Demo.counter) (M := Demo.libm) 10
                    (Fireball.mk (Image := unit) 300 700 300 100 12 true []
                       None 0 (-12) 15)
                    (Demo.empty 0))).
  { apply Fireball_reachable_updates.
    apply (Fireball.reach_init None 300 700 300 100 None). reflexivity. }
  rewrite (surjective_pairing (Fireball.updates _ _ _)) in Hr.
  apply (X15_fireball_draw_is_bounded (R := Demo.counter) (M := Demo.libm)
           (HR := Demo_counter_ok) None _ _ Hr).
Defined.

(** ** What the constructor of a fireball can raise *)

Section FireballInitFacts.
#[local] Open Scope float_scope.

Lemma round_aux_not_negative (m e : Z) (l : location) :
  not_negative (binary_round_aux prec emax false m e l) = true.
Proof.
  unfold binary_round_aux.
  destruct (shr_fexp _ _ _ _ _) as [mrs' e'].
  destruct (shr_fexp _ _ _ _ _) as [mrs'' e''].
  destruct (shr_m mrs'') as [|q|q]; try reflexivity.
  now destruct (Z.leb _ _).
Qed.

Lemma mul_self_not_negative (x : float) :
  is_nan x = false -> not_negative (Prim2SF (x * x)) = true.
Proof.
  unfold is_nan. rewrite FloatAxioms.eqb_spec, mul_spec.
  destruct (Prim2SF x) as [s|s| |s m e]; cbn [SF64mul SFmul not_negative].
  - reflexivity.
  - now destruct s.
  - cbn. discriminate.
  - intros _. replace (xorb s s) with false by now destruct s.
    apply round_aux_not_negative.
Qed.

Lemma is_nan_true (x : float) : is_nan x = true -> Prim2SF x = S754_nan.
Proof.
  unfold is_nan. rewrite FloatAxioms.eqb_spec. unfold SFeqb.
  destruct (Prim2SF x) as [s|s| |s m e]; cbn [SFcompare].
  - discriminate.
  - destruct s; discriminate.
  - reflexivity.
  - rewrite Z.compare_refl, Pos.compare_cont_refl. destruct s; discriminate.
Qed.

Lemma abs_not_negative (x : float) : not_negative (Prim2SF (abs x)) = true.
Proof. rewrite abs_spec. now destruct (Prim2SF x). Qed.

Lemma is_infinity_abs (x : float) : is_infinity (abs x) = is_infinity x.
Proof.
  unfold is_infinity. rewrite !FloatAxioms.eqb_spec, !abs_spec.
  now destruct (Prim2SF x).
Qed.

(** A float that is neither a NaN nor a zero has an absolute value above
    zero. *)
Lemma abs_positive (x : float) :
  is_nan x = false -> (x =? 0) = false -> (0 <? abs x) = true.
Proof.
  unfold is_nan. rewrite !FloatAxioms.eqb_spec, ltb_spec, abs_spec.
  change (Prim2SF 0) with (S754_zero false).
  destruct (Prim2SF x) as [s|s| |s m e]; cbn; try discriminate; reflexivity.
Qed.

Lemma round_not_negative (m : positive) (e : Z) :
  not_negative (binary_round prec emax false m e) = true.
Proof.
  unfold binary_round.
  destruct (shl_align m e _) as [mz ez]. apply round_aux_not_negative.
Qed.

Lemma add_not_negative (a b : float) :
  not_negative (Prim2SF a) = true -> not_negative (Prim2SF b) = true ->
  not_negative (Prim2SF (a + b)) = true.
Proof.
  rewrite add_spec.
  destruct (Prim2SF a) as [sa|[]| |[] ma ea]; try discriminate;
    destruct (Prim2SF b) as [sb|[]| |[] mb eb]; try discriminate;
    intros _ _; try reflexivity.
  - now destruct sa, sb.
  - cbn [SF64add SFadd cond_Zopp].
    destruct (shl_align ma ea (Z.min ea eb)) as [ma' ea'].
    destruct (shl_align mb eb (Z.min ea eb)) as [mb' eb'].
    cbn [fst Z.add binary_normalize]. apply round_not_negative.
Qed.

Lemma sqrt_never_fails (s : float) :
  not_negative (Prim2SF s) = true -> Py.math_sqrt s = Py.Ok (sqrt s).
Proof.
  intros Hs. unfold Py.math_sqrt. rewrite ltb_spec.
  destruct (Prim2SF s) as [[]|[]| |[] m e]; try discriminate; reflexivity.
Qed.

Section WithLibm.
Context {M : Py.Libm} {HM : Py.LibmOk}.

(** [x ** 2] gives a value that is not below zero, or raises
    [OverflowError]. *)
Lemma pow2_cases (v : float) :
  (exists r, Py.pow2 v = Py.Ok r /\ not_negative (Prim2SF r) = true) \/
  Py.pow2 v = Py.Raise Py.OverflowError.
Proof.
  unfold Py.pow2. destruct (is_nan v) eqn:En.
  { left. eexists. split; [reflexivity|]. now rewrite (is_nan_true v En). }
  destruct (is_infinity v) eqn:Ei.
  { left. eexists. split; [reflexivity|]. apply abs_not_negative. }
  destruct (v =? 0) eqn:Ez.
  { left. eexists. split; reflexivity. }
  destruct (abs v =? 1).
  { left. eexists. split; reflexivity. }
  destruct (Py.pow_square (abs v)) as [Hnn Hdom].
  { now apply abs_positive. }
  { now rewrite is_infinity_abs. }
  destruct (Py.pow (abs v) 2) as [ix e]. cbn [fst snd] in Hnn, Hdom.
  unfold Py.adjust_erange. destruct e; [| |contradiction].
  - destruct (is_infinity ix); [now right|left; eauto].
  - destruct (ix =? 0); [left; eauto|now right].
Qed.

(** X16.  With a C library whose [pow], on a finite positive base at
    exponent 2, returns a value that is not below zero and reports no
    domain error, the [math.sqrt] in the constructor of a fireball never
    gets a negative argument, so the constructor never raises [ValueError]:
    it fails only with the [OverflowError] of squaring a coordinate
    difference too large for a float, and otherwise returns a fireball. *)
Theorem X16_constructor_raises_only_overflow {Image : Type}
    (load : option Image) (x y target_x target_y : float)
    (img : option Image) :
  (exists self, Fireball.init load x y target_x target_y img = Py.Ok self) \/
  (Fireball.init load x y target_x target_y img = Py.Raise Py.OverflowError /\
   (Py.pow2 (target_x - x) = Py.Raise Py.OverflowError \/
    Py.pow2 (target_y - y) = Py.Raise Py.OverflowError)).
Proof.
  unfold Fireball.init.
  destruct (pow2_cases (target_x - x)) as [(dx2 & E1 & N1)|E1]; rewrite E1;
    cbn [Py.rbind]; [|right; auto].
  destruct (pow2_cases (target_y - y)) as [(dy2 & E2 & N2)|E2]; rewrite E2;
    cbn [Py.rbind]; [|right; auto].
  rewrite sqrt_never_fails by now apply add_not_negative.
  left. cbn [Py.rbind]. eauto.
Qed.

End WithLibm.

End FireballInitFacts.

(** The demo library keeps the contract of [pow]. *)
Lemma Demo_libm_ok : @Py.LibmOk Demo.libm.
Proof.
  split. intros x Hx _.
  change (Py.pow (Libm := Demo.libm) x 2) with ((x * x)%float, Py.NoError).
  cbn [fst snd]. split; [|discriminate].
  apply mul_self_not_negative. unfold is_nan.
  rewrite ltb_spec in Hx. rewrite FloatAxioms.eqb_spec.
  destruct (Prim2SF x) as [s|s| |s m e]; try discriminate Hx.
  - now destruct s.
  - unfold SFeqb. cbn [SFcompare].
    rewrite Z.compare_refl, Pos.compare_cont_refl. now destruct s.
Qed.

(** A shot from the origin at (3, 4) is constructed; one at a target
    1e200 away overflows. *)
Lemma X16_witness :
  (exists self,
     Fireball.init (Image := unit) (M := Demo.libm) None 0 0 3 4 None
     = Py.Ok self) /\
  Fireball.init (Image := unit) (M := Demo.libm) None 0 0 1e200 4 None
  = Py.Raise Py.OverflowError.
Proof.
  split.
  - destruct (X16_constructor_raises_only_overflow (HM := Demo_libm_ok)
                (Image := unit) None 0 0 3 4 None) as [H|[H _]].
    + exact H.
    + discriminate H.
  - destruct (X16_constructor_raises_only_overflow (HM := Demo_libm_ok)
                (Image := unit) None 0 0 1e200 4 None) as [[self H]|[H _]].
    + discriminate H.
    + exact H.
Defined.
